(** * Voice Prompt Cleanup GUI: the batch runner and the job queue

    A shallow embedding of [voice_prompt_cleanup_gui.py]:
    [ProcessingWorker.run] (the sequential batch executor) and the queue
    operations of [MainWindow] ([add_files], [clear_files],
    [remove_selected], [start_processing]), together with the small parts
    of [pathlib] and [subprocess] that they call.

    The worker thread talks to the rest of the program only through Qt
    signals and [subprocess.run]; both are recorded, in order, in a trace
    of effects.  What the worker cannot decide itself (the value of the
    cancellation flag when the loop tests it, what the external script
    does) is read from a [World]. *)

From Stdlib Require Import List String Ascii Bool Arith ZArith QArith Lia.
From Stdlib Require Import DecimalString.
Import ListNotations.

Local Open Scope nat_scope.
Local Open Scope string_scope.

(** ** Strings, as Python's [str] methods use them *)

Module pystr.

(** [s.split(sep)] for a one-character separator: never empty. *)
Fixpoint split (sep : ascii) (s : string) : list string :=
  match s with
  | EmptyString => [EmptyString]
  | String c s' =>
      if Ascii.eqb c sep then EmptyString :: split sep s'
      else match split sep s' with
           | [] => [String c EmptyString]
           | w :: ws => String c w :: ws
           end
  end.

(** [sep.join(l)] for a one-character separator. *)
Fixpoint join (sep : ascii) (l : list string) : string :=
  match l with
  | [] => EmptyString
  | [w] => w
  | w :: ws => w ++ String sep (join sep ws)
  end.

(** [s.rfind(c)]: index of the last occurrence, [None] for Python's -1. *)
Fixpoint rfind (c : ascii) (s : string) : option nat :=
  match s with
  | EmptyString => None
  | String a s' =>
      match rfind c s' with
      | Some i => Some (S i)
      | None => if Ascii.eqb a c then Some 0 else None
      end
  end.

(** [s * n]. *)
Fixpoint mul (s : string) (n : nat) : string :=
  match n with
  | 0 => EmptyString
  | S n' => s ++ mul s n'
  end.

(** Number of leading occurrences of [c]. *)
Fixpoint leading (c : ascii) (s : string) : nat :=
  match s with
  | String a s' => if Ascii.eqb a c then S (leading c s') else 0
  | EmptyString => 0
  end.

(** [c in s]. *)
Fixpoint contains (c : ascii) (s : string) : bool :=
  match s with
  | EmptyString => false
  | String a s' => Ascii.eqb a c || contains c s'
  end.

Definition LF : string := String "010"%char EmptyString.

End pystr.

(** ** [pathlib.PurePosixPath]

    A path is kept the way [pathlib] keeps it after parsing: the root
    (empty, "/" or "//") and the list of components, with empty and "."
    components dropped.  Equality of paths is equality of this form. *)

Module pathlib.

Record Path : Type := mkPath { root : string; parts : list string }.

Definition keep_part (c : string) : bool :=
  negb (String.eqb c "") && negb (String.eqb c ".").

(** [Path(s)]: exactly two leading slashes give the root "//", one or
    more than two give "/". *)
Definition of_str (s : string) : Path :=
  let n := pystr.leading "/" s in
  let r := if (n =? 0)%nat then "" else if (n =? 2)%nat then "//" else "/" in
  mkPath r (filter keep_part (pystr.split "/" s)).

(** [str(p)]. *)
Definition str (p : Path) : string :=
  match root p, parts p with
  | EmptyString, [] => "."
  | r, ps => r ++ pystr.join "/" ps
  end.

(** [p.name]: the last component, empty when there is none. *)
Definition name (p : Path) : string := last (parts p) "".

(** [p.stem]: the name without its last suffix; a leading or a trailing
    dot does not start a suffix. *)
Definition stem (p : Path) : string :=
  let n := name p in
  match pystr.rfind "." n with
  | Some i =>
      if ((0 <? i) && (i <? String.length n - 1))%nat then substring 0 i n else n
  | None => n
  end.

(** [p.parent]: a path without components is its own parent. *)
Definition parent (p : Path) : Path :=
  match parts p with
  | [] => p
  | _ => mkPath (root p) (removelast (parts p))
  end.

(** [p / s]: a rooted right operand replaces the left one. *)
Definition truediv (p : Path) (s : string) : Path :=
  let q := of_str s in
  if String.eqb (root q) "" then mkPath (root p) (parts p ++ parts q)
  else q.

(** [p == q]. *)
Definition eqb (p q : Path) : bool :=
  String.eqb (root p) (root q)
  && (if list_eq_dec string_dec (parts p) (parts q) then true else false).

(** [p in l] for a list of paths. *)
Definition mem (p : Path) (l : list Path) : bool := existsb (eqb p) l.

End pathlib.

Abbreviation Path := pathlib.Path.
Infix "</>" := pathlib.truediv (at level 40, left associativity).

(** ** [subprocess.run]

    The external script is a black box.  One invocation either cannot be
    carried out (the launch or the decoding of the output raises), or the
    process runs for some time and exits.  [subprocess.run] with a timeout
    raises [TimeoutExpired] when the process is still running after that
    many seconds; the exit status it would have had is then lost. *)

Module subprocess.

Inductive Behaviour : Type :=
| Exits (elapsed : Q) (returncode : Z) (stdout stderr : string)
| Faults (description : string).

Record CompletedProcess : Type :=
  mkCompleted { returncode : Z; stdout : string; stderr : string }.

(** What a [try] around [subprocess.run] can catch; [Exception] carries
    [str(e)]. *)
Inductive Raised : Type :=
| TimeoutExpired
| Exception (description : string).

Definition run (b : Behaviour) (timeout : Q) : Raised + CompletedProcess :=
  match b with
  | Exits elapsed rc out err =>
      if Qle_bool elapsed timeout then inr (mkCompleted rc out err)
      else inl TimeoutExpired
  | Faults e => inl (Exception e)
  end.

End subprocess.

(** ** Signals and effects of the worker thread *)

(** The four signals of [ProcessingWorker], with their arguments. *)
Inductive signal : Type :=
| progress (current total : nat) (message : string)
| file_complete (filename : string) (success : bool) (message : string)
| all_complete (successful failed : nat)
| log_message (message : string).

(** What the worker does to the outside, in the order it does it. *)
Inductive effect : Type :=
| emit (s : signal)
| spawn (args : list string) (timeout : Q).

(** What the worker reads from the outside.  [_cancelled i] is the value
    of [self._cancelled] (set by [cancel()] on the GUI thread) when the
    test at the top of iteration [i] reads it; [script i args] is what the
    process started in iteration [i] with these arguments does. *)
Record World : Type := mkWorld {
  _cancelled : nat -> bool;
  script : nat -> list string -> subprocess.Behaviour
}.

(** The local variables [successful] and [failed] of [run]. *)
Record Counters : Type := mkCounters { successful : nat; failed : nat }.

(** A computation of the worker: it updates the counters and appends to
    the trace of effects. *)
Definition Worker (A : Type) : Type := Counters -> A * Counters * list effect.

Definition ret {A} (a : A) : Worker A := fun c => (a, c, []).

Definition bind {A B} (m : Worker A) (k : A -> Worker B) : Worker B :=
  fun c =>
    let '(a, c1, t1) := m c in
    let '(b, c2, t2) := k a c1 in
    (b, c2, (t1 ++ t2)%list).

Notation "x <- m ;; k" := (bind m (fun x => k))
  (at level 61, m at next level, right associativity).
Notation "m ;; k" := (bind m (fun _ => k))
  (at level 61, right associativity).

Definition signal_emit (s : signal) : Worker unit :=
  fun c => (tt, c, [emit s]).

Definition incr_successful : Worker unit :=
  fun c => (tt, mkCounters (successful c + 1) (failed c), []).

Definition incr_failed : Worker unit :=
  fun c => (tt, mkCounters (successful c) (failed c + 1), []).

Definition get_successful : Worker nat := fun c => (successful c, c, []).
Definition get_failed : Worker nat := fun c => (failed c, c, []).

(** The call [subprocess.run(args, capture_output=True, text=True,
    timeout=t)] inside a [try]: the call is recorded and its result, or
    what it raised, is returned. *)
Definition subprocess_run (w : World) (i : nat) (args : list string) (t : Q)
  : Worker (subprocess.Raised + subprocess.CompletedProcess) :=
  fun c => (subprocess.run (script w i args) t, c, [spawn args t]).

(** ** [ProcessingWorker] *)

Record ProcessingWorker : Type := mkWorker {
  files : list Path;
  output_folder : option Path;
  script_path : Path
}.

Definition rule : string := pystr.mul "=" 60.

(** [x or y] on strings. *)
Definition str_or (x y : string) : string :=
  if String.eqb x "" then y else x.

Section Run.

Variable self : ProcessingWorker.
Variable world : World.

(** "Determine output path": the value of [output_path] for the item
    [input_file]. *)
Definition output_path_for (input_file : Path) : Path :=
  let output_name := pathlib.stem input_file ++ "_processed.mp3" in
  match output_folder self with
  | Some folder => folder </> output_name
  | None => pathlib.parent input_file </> output_name
  end.

(** The body of the [for] loop after the cancellation test, for the item
    [input_file] at index [i]. *)
Definition process_file (total i : nat) (input_file : Path) : Worker unit :=
  signal_emit (progress i total ("Processing: " ++ pathlib.name input_file)) ;;
  let output_path := output_path_for input_file in
  signal_emit (log_message (pystr.LF ++ rule)) ;;
  signal_emit (log_message ("Processing: " ++ pathlib.name input_file)) ;;
  signal_emit (log_message ("Output: " ++ pathlib.str output_path)) ;;
  signal_emit (log_message (rule ++ pystr.LF)) ;;
  r <- subprocess_run world i
         [pathlib.str (script_path self); pathlib.str input_file;
          pathlib.str output_path] 600%Q ;;
  match r with
  | inr result =>
      if (subprocess.returncode result =? 0)%Z then
        incr_successful ;;
        signal_emit (file_complete (pathlib.name input_file) true "Success") ;;
        signal_emit (log_message (subprocess.stdout result))
      else
        incr_failed ;;
        let error_msg := str_or (subprocess.stderr result) "Unknown error" in
        signal_emit (file_complete (pathlib.name input_file) false error_msg) ;;
        signal_emit (log_message ("❌ Error: " ++ error_msg))
  | inl subprocess.TimeoutExpired =>
      incr_failed ;;
      signal_emit
        (file_complete (pathlib.name input_file) false "Timeout (>10 min)") ;;
      signal_emit (log_message "❌ Error: Processing timeout exceeded")
  | inl (subprocess.Exception e) =>
      incr_failed ;;
      signal_emit (file_complete (pathlib.name input_file) false e) ;;
      signal_emit (log_message ("❌ Error: " ++ e))
  end.

(** [for i, input_file in enumerate(self.files)], from index [i] on; the
    [break] ends the loop without touching the remaining items. *)
Fixpoint for_each (total i : nat) (rest : list Path) : Worker unit :=
  match rest with
  | [] => ret tt
  | input_file :: rest' =>
      if _cancelled world i then
        signal_emit
          (log_message (pystr.LF ++ "⚠️  Processing cancelled by user"))
      else
        process_file total i input_file ;;
        for_each total (S i) rest'
  end.

Definition run_body : Worker unit :=
  let total := List.length (files self) in
  for_each total 0 (files self) ;;
  signal_emit (progress total total "Complete") ;;
  s <- get_successful ;;
  f <- get_failed ;;
  signal_emit (all_complete s f).

(** [run()]: the counters start at zero; the result is the trace. *)
Definition run : list effect :=
  snd (run_body (mkCounters 0 0)).

End Run.

(** ** [MainWindow]: the job queue and the start of a run

    Only [self.files_to_process] and [self.script_path] matter here; the
    list widget mirrors the queue and the buttons are not modelled. *)

Module MainWindow.

(** [list.remove(x)]: the first element equal to [x] goes ([ValueError]
    when there is none, which the caller excludes). *)
Fixpoint list_remove (x : Path) (l : list Path) : list Path :=
  match l with
  | [] => []
  | y :: l' => if pathlib.eqb y x then l' else y :: list_remove x l'
  end.

(** [add_files(files)], on [self.files_to_process]. *)
Fixpoint add_files (files_to_process files : list Path) : list Path :=
  match files with
  | [] => files_to_process
  | file_path :: files' =>
      if negb (pathlib.mem file_path files_to_process)
      then add_files (files_to_process ++ [file_path])%list files'
      else add_files files_to_process files'
  end.

(** [clear_files()]. *)
Definition clear_files (files_to_process : list Path) : list Path := [].

(** [remove_selected()]; [selected] holds the paths stored in the
    selected items of the list widget. *)
Fixpoint remove_selected (files_to_process selected : list Path)
  : list Path :=
  match selected with
  | [] => files_to_process
  | file_path :: selected' =>
      if pathlib.mem file_path files_to_process
      then remove_selected (list_remove file_path files_to_process) selected'
      else remove_selected files_to_process selected'
  end.

(** What [start_processing] reads from the widgets and the file system:
    the check box, the text of the output folder field, whether that
    folder exists, what [mkdir(parents=True)] does when it is called
    ([Some e] when it raises, with [e] the text of the exception), and
    whether the script exists. *)
Record Form : Type := mkForm {
  use_custom_output_isChecked : bool;
  output_folder_edit_text : string;
  output_folder_exists : bool;
  mkdir_raises : option string;
  script_exists : bool
}.

(** How [start_processing] ends: it returns without a run, possibly
    after an error dialog (title and text), or it starts a worker. *)
Inductive Started : Type :=
| NoRun (dialog : option (string * string))
| Run (worker : ProcessingWorker).

Definition start_processing
  (files_to_process : list Path) (script_path : Path) (form : Form)
  : Started :=
  match files_to_process with
  | [] => NoRun None
  | _ =>
      let validated : string + option Path :=
        if use_custom_output_isChecked form then
          let output_folder := pathlib.of_str (output_folder_edit_text form) in
          if negb (output_folder_exists form) then
            match mkdir_raises form with
            | Some e => inl ("Cannot create output folder:" ++ pystr.LF ++ e)
            | None => inr (Some output_folder)
            end
          else inr (Some output_folder)
        else inr None in
      match validated with
      | inl text => NoRun (Some ("Error", text))
      | inr output_folder =>
          if negb (script_exists form) then
            NoRun (Some ("Error",
                         "Processing script not found:" ++ pystr.LF
                         ++ pathlib.str script_path))
          else Run (mkWorker files_to_process output_folder script_path)
      end
  end.

End MainWindow.

(** ** Reading a trace *)

(** The [file_complete] signals of a trace, in order. *)
Fixpoint completions (t : list effect) : list (string * bool * string) :=
  match t with
  | [] => []
  | emit (file_complete n ok msg) :: t' => (n, ok, msg) :: completions t'
  | _ :: t' => completions t'
  end.

(** The argument lists of the processes started, in order. *)
Fixpoint spawned (t : list effect) : list (list string) :=
  match t with
  | [] => []
  | spawn args _ :: t' => args :: spawned t'
  | _ :: t' => spawned t'
  end.

(** The [(current, total)] pairs of the [progress] signals, in order. *)
Fixpoint progress_marks (t : list effect) : list (nat * nat) :=
  match t with
  | [] => []
  | emit (progress i n _) :: t' => (i, n) :: progress_marks t'
  | _ :: t' => progress_marks t'
  end.

(** The [all_complete] signals of a trace: the run summaries. *)
Fixpoint summaries (t : list effect) : list (nat * nat) :=
  match t with
  | [] => []
  | emit (all_complete s f) :: t' => (s, f) :: summaries t'
  | _ :: t' => summaries t'
  end.

(** Progress signals and process starts, interleaved as they happen. *)
Fixpoint milestones (t : list effect) : list (nat * nat + list string) :=
  match t with
  | [] => []
  | emit (progress i n _) :: t' => inl (i, n) :: milestones t'
  | spawn args _ :: t' => inr args :: milestones t'
  | _ :: t' => milestones t'
  end.

Definition succeeded (c : string * bool * string) : bool := snd (fst c).
Definition filename_of (c : string * bool * string) : string := fst (fst c).

(** The arguments [run] passes to [subprocess.run] for an item. *)
Definition argv (self : ProcessingWorker) (input_file : Path) : list string :=
  [pathlib.str (script_path self); pathlib.str input_file;
   pathlib.str (output_path_for self input_file)].

(** Number of items the loop reaches before the flag is first read as
    set, among [n] items starting at index [i]. *)
Fixpoint attempts (cancelled : nat -> bool) (i n : nat) : nat :=
  match n with
  | 0 => 0
  | S n' => if cancelled i then 0 else S (attempts cancelled (S i) n')
  end.

(** A path as [pathlib] builds it: no component is empty or ".", and none
    holds a separator. *)
Definition well_formed (p : Path) : bool :=
  forallb (fun c => pathlib.keep_part c && negb (pystr.contains "/" c))
          (pathlib.parts p).

(** ** The job outcome of the specification

    The specification names three outcomes for an attempted item and says
    which behaviour of the external process gives which. *)

Inductive JobOutcome : Type :=
| Success
| Failure (reason : string)
| TimedOut.

(** The classification in the specification's words: a process that runs
    longer than 600 seconds is timed out whatever its exit status; exit
    status 0 is a success; another status is a failure with the error text
    of the process, or "Unknown error" when that is empty; a fault of the
    invocation is a failure with the fault's description. *)
Definition classify (b : subprocess.Behaviour) : JobOutcome :=
  match b with
  | subprocess.Exits elapsed rc _ err =>
      if Qlt_le_dec 600 elapsed then TimedOut
      else if Z.eq_dec rc 0 then Success
      else Failure (if string_dec err "" then "Unknown error" else err)
  | subprocess.Faults e => Failure e
  end.

(** How the worker reports an outcome in [file_complete]: the success
    flag and the message. *)
Definition reported (o : JobOutcome) : bool * string :=
  match o with
  | Success => (true, "Success")
  | Failure reason => (false, reason)
  | TimedOut => (false, "Timeout (>10 min)")
  end.

(** The counters after an item with the given outcome. *)
Definition counted (o : JobOutcome) (c : Counters) : Counters :=
  match o with
  | Success => mkCounters (successful c + 1) (failed c)
  | _ => mkCounters (successful c) (failed c + 1)
  end.

(** Whether [start_processing] passes its two validations. *)
Definition validated (form : MainWindow.Form) : bool :=
  (negb (MainWindow.use_custom_output_isChecked form)
   || MainWindow.output_folder_exists form
   || match MainWindow.mkdir_raises form with None => true | Some _ => false end)
  && MainWindow.script_exists form.

(** ** One iteration, as a trace

    What an iteration of the loop emits is determined by the behaviour of
    the process it starts; the next definitions spell this out so that the
    loop can be reasoned about item by item. *)

(** The behaviour of the process started for [input_file] in iteration
    [i]. *)
Definition behaviour_at (self : ProcessingWorker) (world : World)
  (i : nat) (input_file : Path) : subprocess.Behaviour :=
  script world i (argv self input_file).

(** The last log line of an iteration. *)
Definition closing_log (b : subprocess.Behaviour) : string :=
  match classify b with
  | Success =>
      match b with
      | subprocess.Exits _ _ out _ => out
      | subprocess.Faults _ => ""
      end
  | Failure reason => "❌ Error: " ++ reason
  | TimedOut => "❌ Error: Processing timeout exceeded"
  end.

Definition item_trace (self : ProcessingWorker) (world : World)
  (total i : nat) (input_file : Path) : list effect :=
  let b := behaviour_at self world i input_file in
  [ emit (progress i total ("Processing: " ++ pathlib.name input_file));
    emit (log_message (pystr.LF ++ rule));
    emit (log_message ("Processing: " ++ pathlib.name input_file));
    emit (log_message
            ("Output: " ++ pathlib.str (output_path_for self input_file)));
    emit (log_message (rule ++ pystr.LF));
    spawn (argv self input_file) 600%Q;
    emit (file_complete (pathlib.name input_file)
            (fst (reported (classify b))) (snd (reported (classify b))));
    emit (log_message (closing_log b)) ].

Fixpoint items_trace (self : ProcessingWorker) (world : World)
  (total i : nat) (items : list Path) : list effect :=
  match items with
  | [] => []
  | f :: items' =>
      (item_trace self world total i f
       ++ items_trace self world total (S i) items')%list
  end.

Fixpoint items_count (self : ProcessingWorker) (world : World)
  (i : nat) (items : list Path) (c : Counters) : Counters :=
  match items with
  | [] => c
  | f :: items' =>
      items_count self world (S i) items'
        (counted (classify (behaviour_at self world i f)) c)
  end.

Definition cancel_note : effect :=
  emit (log_message (pystr.LF ++ "⚠️  Processing cancelled by user")).

(** ** The queue under any sequence of user actions *)

(** The three actions that change [self.files_to_process]. *)
Inductive QueueAction : Type :=
| AddFiles (files : list Path)
| RemoveSelected (selected : list Path)
| ClearFiles.

Definition perform (files_to_process : list Path) (a : QueueAction)
  : list Path :=
  match a with
  | AddFiles files => MainWindow.add_files files_to_process files
  | RemoveSelected selected =>
      MainWindow.remove_selected files_to_process selected
  | ClearFiles => MainWindow.clear_files files_to_process
  end.

(** The queue after a session of actions; it starts empty. *)
Definition queue_after (actions : list QueueAction) : list Path :=
  fold_left perform actions [].

(** ** Sample values *)

Definition sample_script : Path :=
  pathlib.of_str "/usr/share/voice-prompt-cleanup/process_audio.sh".

Definition a_wav : Path := pathlib.of_str "/home/user/a.wav".
Definition b_mp3 : Path := pathlib.of_str "/home/user/b.mp3".
Definition c_ogg : Path := pathlib.of_str "/home/user/notes/c.ogg".

Definition sample_worker : ProcessingWorker :=
  mkWorker [a_wav; b_mp3; c_ogg] None sample_script.

(** The first process succeeds, the second exits with status 1 and
    "bad codec" on its error stream, every later one runs for 700
    seconds. *)
Definition sample_script_behaviour (i : nat) (args : list string)
  : subprocess.Behaviour :=
  match i with
  | 0 => subprocess.Exits 3 0 "done" ""
  | 1 => subprocess.Exits 5 1 "" "bad codec"
  | _ => subprocess.Exits 700 0 "" ""
  end.

(** Nobody cancels. *)
Definition quiet_world : World :=
  mkWorld (fun _ => false) sample_script_behaviour.

(** The user cancels while the first item is being processed: the flag
    is set from the second test on. *)
Definition cancelling_world : World :=
  mkWorld (fun i => (1 <=? i)%nat) sample_script_behaviour.

Definition sample_form : MainWindow.Form :=
  MainWindow.mkForm false "" false None true.

(** Number of items a run attempts. *)
Definition reached (self : ProcessingWorker) (world : World) : nat :=
  attempts (_cancelled world) 0 (List.length (files self)).

(** ** More of the worker: what a run depends on *)

(** The test the loop body applies to the result of [subprocess.run]
    before it counts a success: the call returned (the process ended
    within the timeout of 600 seconds) and [returncode == 0]. *)
Definition exited_cleanly (b : subprocess.Behaviour) : bool :=
  match subprocess.run b 600%Q with
  | inr result => (subprocess.returncode result =? 0)%Z
  | inl _ => false
  end.

(** The items a run attempts, with their indices. *)
Definition attempted_items (self : ProcessingWorker) (world : World)
  : list (nat * Path) :=
  combine (seq 0 (reached self world))
          (firstn (reached self world) (files self)).

(** The directory the output of [input_file] goes to. *)
Definition output_dir (self : ProcessingWorker) (input_file : Path) : Path :=
  match output_folder self with
  | Some folder => folder
  | None => pathlib.parent input_file
  end.

(** The user cancels only after the third (last) test of the flag. *)
Definition late_cancel_world : World :=
  mkWorld (fun i => (3 <=? i)%nat) sample_script_behaviour.

(** ** [MainWindow._find_script] and the file system *)

(** What the program asks the file system about a path: [p.exists()] and
    [p.is_file()]. *)
Record FileSystem : Type := mkFileSystem {
  path_exists : Path -> bool;
  path_is_file : Path -> bool
}.

(** The [locations] of [_find_script]; [here] is [Path(__file__).parent]
    and [home] is [Path.home()]. *)
Definition script_locations (here home : Path) : list Path :=
  [ here </> "process_audio.sh";
    pathlib.of_str "/usr/share/voice-prompt-cleanup/process_audio.sh";
    pathlib.of_str "/usr/local/share/voice-prompt-cleanup/process_audio.sh";
    home </> ".local/share/voice-prompt-cleanup/process_audio.sh" ].

(** The test [loc.exists() and loc.is_file()] of the loop. *)
Definition usable (fs : FileSystem) (loc : Path) : bool :=
  path_exists fs loc && path_is_file fs loc.

(** The [for loc in locations] loop with its [return]. *)
Fixpoint first_location (fs : FileSystem) (locations : list Path)
  : option Path :=
  match locations with
  | [] => None
  | loc :: locations' =>
      if path_exists fs loc && path_is_file fs loc then Some loc
      else first_location fs locations'
  end.

Definition _find_script (fs : FileSystem) (here home : Path) : Path :=
  match first_location fs (script_locations here home) with
  | Some loc => loc
  | None => here </> "process_audio.sh"
  end.

(** What [start_processing] reads when [mkdir] is not called, that is
    when the custom output folder is not used or exists already: the
    script is looked up in the same file system. *)
Definition form_on (fs : FileSystem) (script_path : Path)
  (checked : bool) (text : string) : MainWindow.Form :=
  MainWindow.mkForm checked text
    (path_exists fs (pathlib.of_str text)) None (path_exists fs script_path).

(** ** [SettingsManager]

    The settings file is kept as the JSON value it holds; [json.dump]
    followed by [json.load] gives back the value written (numbers are
    integers here).  Python does not check the declared types of the
    fields of [AppSettings], so the three persisted fields hold JSON
    values.  A [JObject] stands for the dictionary built from its
    members in their order, in which a later member replaces the value
    of an earlier one with the same key. *)

#[local] Unset Elimination Schemes.

Inductive json : Type :=
| JNull
| JBool (b : bool)
| JNumber (z : Z)
| JString (s : string)
| JArray (items : list json)
| JObject (members : list (string * json)).

#[local] Set Elimination Schemes.

Module SettingsManager.

Record AppSettings : Type := mkSettings {
  output_folder : json;
  use_custom_output : json;
  last_input_folder : json;
  window_geometry : string
}.

(** [AppSettings()]. *)
Definition defaults : AppSettings :=
  mkSettings (JString "") (JBool false) (JString "") "".

(** What [open] and [json.load] raise on a settings file: [IOError]
    when the file cannot be opened or read, [JSONDecodeError] when its
    text is not JSON, [UnicodeDecodeError] when it is not text in the
    encoding of [open], [ValueError] when an integer has more digits
    than [int] converts, [RecursionError] when the nesting is too
    deep. *)
Inductive ReadError : Type :=
| IOError
| JSONDecodeError
| UnicodeDecodeError
| ValueError
| RecursionError.

(** [except (json.JSONDecodeError, IOError)].  Neither
    [UnicodeDecodeError] nor the [ValueError] of the digit limit is a
    [JSONDecodeError], though all three are [ValueError]s. *)
Definition caught (e : ReadError) : bool :=
  match e with
  | IOError | JSONDecodeError => true
  | UnicodeDecodeError | ValueError | RecursionError => false
  end.

(** The file [CONFIG_FILE], by what [load] meets on it: [exists()]
    returns [False]; [exists()] itself raises (an [OSError] it does not
    ignore, as for a directory that may not be searched); the [with]
    block raises in [open] or [json.load]; or [json.load] returns a
    value. *)
Inductive ConfigFile : Type :=
| Missing
| Inaccessible
| Fails (e : ReadError)
| Holds (content : json).

(** The value of a key in the dictionary [json.load] builds from the
    members of an object: a later member with the same key wins. *)
Fixpoint lookup (key : string) (members : list (string * json))
  : option json :=
  match members with
  | [] => None
  | (k, v) :: members' =>
      match lookup key members' with
      | Some w => Some w
      | None => if String.eqb k key then Some v else None
      end
  end.

(** [data.get(key, default)]. *)
Definition get (members : list (string * json)) (key : string)
  (default : json) : json :=
  match lookup key members with
  | Some v => v
  | None => default
  end.

(** How [load] ends: it returns settings; the [AttributeError] of
    [data.get] on a value that is not a dictionary leaves it; or an
    exception that the [except] clause does not name, or that is raised
    outside the [try], leaves it. *)
Inductive Loaded : Type :=
| Returns (settings : AppSettings)
| RaisesAttributeError
| Raises (e : ReadError).

Definition load (file : ConfigFile) : Loaded :=
  match file with
  | Missing => Returns defaults
  | Inaccessible => Raises IOError
  | Fails e => if caught e then Returns defaults else Raises e
  | Holds (JObject data) =>
      Returns (mkSettings (get data "output_folder" (JString ""))
                          (get data "use_custom_output" (JBool false))
                          (get data "last_input_folder" (JString ""))
                          (window_geometry defaults))
  | Holds _ => RaisesAttributeError
  end.

(** [save(settings)], when the directory and the file can be written:
    the file afterwards. *)
Definition save (settings : AppSettings) : ConfigFile :=
  Holds (JObject [ ("output_folder", output_folder settings);
                   ("use_custom_output", use_custom_output settings);
                   ("last_input_folder", last_input_folder settings) ]).

End SettingsManager.

(** *** The handlers of [MainWindow] that change the settings

    Each of them assigns one field of [self.settings] and saves at once;
    the state is the settings in memory and the file. *)







(** ** The window: queue, worker and buttons

    The part of the state of [MainWindow] that decides which actions are
    possible: the queue, the worker of the run in progress with its
    [_cancelled] flag, and whether each button is enabled. *)

Module Window.

Record State : Type := mkState {
  files_to_process : list Path;
  script_path : Path;
  worker : option (ProcessingWorker * bool);
  process_btn : bool;
  cancel_btn : bool;
  add_files_btn : bool;
  add_folder_btn : bool;
  clear_btn : bool;
  remove_selected_btn : bool
}.

(** The state after [__init__]: [init_ui] disables the two action
    buttons and leaves the others enabled. *)
Definition init (script_path : Path) : State :=
  mkState [] script_path None false false true true true true.

Definition has_files (q : list Path) : bool :=
  match q with [] => false | _ => true end.

Definition no_worker (w : option (ProcessingWorker * bool)) : bool :=
  match w with None => true | Some _ => false end.

Definition with_queue (st : State) (q : list Path) : State :=
  mkState q (script_path st) (worker st) (process_btn st) (cancel_btn st)
    (add_files_btn st) (add_folder_btn st) (clear_btn st)
    (remove_selected_btn st).

(** [update_ui_state()]. *)
Definition update_ui_state (st : State) : State :=
  mkState (files_to_process st) (script_path st) (worker st)
    (has_files (files_to_process st) && no_worker (worker st))
    (cancel_btn st) (add_files_btn st) (add_folder_btn st) (clear_btn st)
    (remove_selected_btn st).

Definition add_files (st : State) (files : list Path) : State :=
  update_ui_state
    (with_queue st (MainWindow.add_files (files_to_process st) files)).

Definition clear_files (st : State) : State :=
  update_ui_state
    (with_queue st (MainWindow.clear_files (files_to_process st))).

Definition remove_selected (st : State) (selected : list Path) : State :=
  update_ui_state
    (with_queue st
       (MainWindow.remove_selected (files_to_process st) selected)).

(** [browse_files()], [browse_folder()] and the [files_dropped] signal
    of [dropEvent] call [add_files] only with a non-empty list. *)
Definition add_if_any (st : State) (files : list Path) : State :=
  match files with
  | [] => st
  | _ => add_files st files
  end.

(** [start_processing()]: the early returns leave the window as it is;
    otherwise the buttons are switched and the worker is created on a
    copy of the queue, its flag unset. *)
Definition start_processing (st : State) (form : MainWindow.Form) : State :=
  match MainWindow.start_processing (files_to_process st) (script_path st)
          form with
  | MainWindow.NoRun _ => st
  | MainWindow.Run w =>
      mkState (files_to_process st) (script_path st) (Some (w, false))
        false true false false false false
  end.

(** [cancel_processing()]. *)
Definition cancel_processing (st : State) : State :=
  match worker st with
  | Some (w, _) =>
      mkState (files_to_process st) (script_path st) (Some (w, true))
        (process_btn st) false (add_files_btn st) (add_folder_btn st)
        (clear_btn st) (remove_selected_btn st)
  | None => st
  end.

(** [on_all_complete()], as far as the worker and the buttons go. *)
Definition on_all_complete (st : State) : State :=
  mkState (files_to_process st) (script_path st) None
    true false true true true true.

(** What can happen to the window while it is open (closing it ends
    the session). *)
Inductive Event : Type :=
| ClickAddFiles (files : list Path)
| ClickAddFolder (files : list Path)
| DropFiles (files : list Path)
| ClickClear
| ClickRemoveSelected (selected : list Path)
| ClickProcess (form : MainWindow.Form)
| ClickCancel
| AllComplete.

(** A button is clicked only while it is enabled; files can be dropped
    on the list at any time; [all_complete] arrives from the worker of a
    run in progress. *)
Definition possible (st : State) (e : Event) : bool :=
  match e with
  | ClickAddFiles _ => add_files_btn st
  | ClickAddFolder _ => add_folder_btn st
  | DropFiles _ => true
  | ClickClear => clear_btn st
  | ClickRemoveSelected _ => remove_selected_btn st
  | ClickProcess _ => process_btn st
  | ClickCancel => cancel_btn st
  | AllComplete => negb (no_worker (worker st))
  end.

Definition handle (st : State) (e : Event) : State :=
  match e with
  | ClickAddFiles files => add_if_any st files
  | ClickAddFolder files => add_if_any st files
  | DropFiles files => add_if_any st files
  | ClickClear => clear_files st
  | ClickRemoveSelected selected => remove_selected st selected
  | ClickProcess form => start_processing st form
  | ClickCancel => cancel_processing st
  | AllComplete => on_all_complete st
  end.

(** The states the window can be in. *)
Inductive reachable (script_path : Path) : State -> Prop :=
| reach_init : reachable script_path (init script_path)
| reach_step st e :
    reachable script_path st -> possible st e = true ->
    reachable script_path (handle st e).

End Window.

(** ** What the window shows of a run

    The slots connected to the four signals of the worker, on the
    widgets they write to.  Between [start_processing] and the end of
    [on_all_complete] nothing else writes to the progress bar, the
    label or the log; the status bar is also written by
    [update_ui_state] and [cancel_processing].  [dialogs] are the
    message boxes the slots open. *)

(** [f"{n}"] for a non-negative integer. *)
Definition decimal (n : nat) : string :=
  NilEmpty.string_of_uint (Nat.to_uint n).

Inductive DialogKind : Type := Information | Warning.

Record View : Type := mkView {
  progress_bar_value : nat;
  progress_bar_maximum : nat;
  progress_label : string;
  status_bar : string;
  log_output : list string;
  dialogs : list (DialogKind * string * string)
}.

(** [QProgressBar.setValue]: a value outside the range of the bar is
    ignored (the minimum of the bar is 0). *)
Definition setValue (v : View) (value : nat) : nat :=
  if (value <=? progress_bar_maximum v)%nat then value
  else progress_bar_value v.

(** The view when [start_processing] has cleared the log and reset the
    bar for a queue of [n] items; the label and the status bar keep
    what they showed. *)
Definition started_view (label status : string) (n : nat) : View :=
  mkView 0 n label status [] [].

Definition on_progress (v : View) (current total : nat) (message : string)
  : View :=
  mkView (setValue v current) (progress_bar_maximum v) message
    ("Processing " ++ decimal (current + 1) ++ "/" ++ decimal total
     ++ ": " ++ message)
    (log_output v) (dialogs v).

Definition on_file_complete (v : View) (filename : string) (success : bool)
  (message : string) : View :=
  let status := if success then "✓" else "✗" in
  mkView (progress_bar_value v) (progress_bar_maximum v) (progress_label v)
    (status_bar v)
    (log_output v
     ++ [(pystr.LF ++ status ++ " " ++ filename ++ ": " ++ message)%string])%list
    (dialogs v).

Definition on_log_message (v : View) (message : string) : View :=
  mkView (progress_bar_value v) (progress_bar_maximum v) (progress_label v)
    (status_bar v) (log_output v ++ [message])%list (dialogs v).

(** The message box [on_all_complete] ends with, if any. *)
Definition completion_dialog (successful failed : nat)
  : list (DialogKind * string * string) :=
  if ((failed =? 0) && (0 <? successful))%nat then
    [ (Information, "Complete",
       ("Successfully processed " ++ decimal successful ++ " file(s)!")) ]
  else if (0 <? failed)%nat then
    [ (Warning, "Complete with Errors",
       ("Processed " ++ decimal successful ++ " file(s) successfully."
        ++ pystr.LF ++ decimal failed
        ++ " file(s) failed - check the log for details.")) ]
  else [].

(** [on_all_complete], as far as the display goes. *)
Definition show_all_complete (v : View) (successful failed : nat) : View :=
  let total := successful + failed in
  mkView (progress_bar_value v) (progress_bar_maximum v)
    ("Complete: " ++ decimal successful ++ "/" ++ decimal total
     ++ " successful")
    ("Processing complete: " ++ decimal successful ++ " successful, "
     ++ decimal failed ++ " failed")
    (log_output v
     ++ [ (pystr.LF ++ rule)%string;
          "Processing complete!";
          ("  Successful: " ++ decimal successful)%string;
          ("  Failed: " ++ decimal failed)%string;
          rule ])%list
    (dialogs v ++ completion_dialog successful failed)%list.

(** The slot a signal is connected to. *)
Definition deliver (v : View) (s : signal) : View :=
  match s with
  | progress current total message => on_progress v current total message
  | file_complete filename success message =>
      on_file_complete v filename success message
  | all_complete successful failed => show_all_complete v successful failed
  | log_message message => on_log_message v message
  end.

(** The signals of a trace, in the order of emission. *)
Fixpoint signals (t : list effect) : list signal :=
  match t with
  | [] => []
  | emit s :: t' => s :: signals t'
  | spawn _ _ :: t' => signals t'
  end.

(** The view after the signals of a whole run have been delivered. *)
Definition view_after_run (self : ProcessingWorker) (world : World)
  (label status : string) : View :=
  fold_left deliver (signals (run self world))
    (started_view label status (List.length (files self))).

(** What holds of the window in every state it can reach: the queue has
    no duplicates; without a worker the buttons are those of an idle
    window; with a worker they are those of a run in progress, and the
    queue begins with the files the worker was given. *)
Definition window_invariant (st : Window.State) : Prop :=
  NoDup (Window.files_to_process st)
  /\ match Window.worker st with
     | None =>
         Window.process_btn st
         = Window.has_files (Window.files_to_process st)
         /\ Window.cancel_btn st = false
         /\ Window.add_files_btn st = true
         /\ Window.add_folder_btn st = true
         /\ Window.clear_btn st = true
         /\ Window.remove_selected_btn st = true
     | Some (w, cancelled) =>
         Window.process_btn st = false
         /\ Window.cancel_btn st = negb cancelled
         /\ Window.add_files_btn st = false
         /\ Window.add_folder_btn st = false
         /\ Window.clear_btn st = false
         /\ Window.remove_selected_btn st = false
         /\ files w <> []
         /\ exists added,
             Window.files_to_process st = (files w ++ added)%list
     end.

(** A session: files are dropped, the run is started, and another file
    is dropped while it runs. *)
Definition sample_session : list Window.Event :=
  [ Window.DropFiles [a_wav; b_mp3];
    Window.ClickProcess sample_form;
    Window.DropFiles [c_ogg] ].

Definition sample_window : Window.State :=
  fold_left Window.handle sample_session (Window.init sample_script).

(** * Proofs *)

(** ** Strings and paths *)

Module pystr_facts.

Lemma contains_append (c : ascii) (a b : string) :
  pystr.contains c (a ++ b) = pystr.contains c a || pystr.contains c b.
Proof.
  induction a as [|x a IH]; simpl; [reflexivity|].
  rewrite IH. now rewrite orb_assoc.
Qed.

Lemma contains_substring (c : ascii) (n : nat) (s : string) :
  pystr.contains c (substring 0 n s) = true -> pystr.contains c s = true.
Proof.
  revert s; induction n as [|n IH]; intros [|x s]; simpl; try discriminate.
  intros H. apply orb_true_iff in H as [H|H].
  - now rewrite H.
  - rewrite (IH _ H). apply orb_true_r.
Qed.

Lemma split_without_sep (sep : ascii) (s : string) :
  pystr.contains sep s = false -> pystr.split sep s = [s].
Proof.
  induction s as [|x s IH]; simpl; [reflexivity|].
  intros H. apply orb_false_iff in H as [Hx Hs].
  rewrite Hx, (IH Hs). reflexivity.
Qed.

Lemma split_pieces (sep : ascii) (s : string) :
  Forall (fun w => pystr.contains sep w = false) (pystr.split sep s).
Proof.
  induction s as [|x s IH]; simpl.
  - repeat constructor.
  - destruct (Ascii.eqb x sep) eqn:Hx.
    + constructor; [reflexivity | exact IH].
    + destruct (pystr.split sep s) as [|w ws].
      * constructor; [simpl; now rewrite Hx | constructor].
      * inversion IH as [|? ? Hw Hws]; subst.
        constructor; [simpl; now rewrite Hx, Hw | exact Hws].
Qed.

Lemma leading_without (c : ascii) (s : string) :
  pystr.contains c s = false -> pystr.leading c s = 0.
Proof.
  destruct s as [|x s]; simpl; [reflexivity|].
  intros H. apply orb_false_iff in H as [Hx _]. now rewrite Hx.
Qed.

End pystr_facts.

Module pathlib_facts.

Import pathlib.

Lemma eqb_eq (p q : Path) : eqb p q = true <-> p = q.
Proof.
  destruct p as [r1 ps1], q as [r2 ps2]; unfold eqb; simpl.
  rewrite andb_true_iff, String.eqb_eq.
  destruct (list_eq_dec string_dec ps1 ps2) as [E|N]; split.
  - intros [-> _]. now subst.
  - intros H. injection H as -> _. now split.
  - intros [_ H]. discriminate.
  - intros H. injection H as _ H. contradiction.
Qed.

Lemma eqb_refl (p : Path) : eqb p p = true.
Proof. now apply eqb_eq. Qed.

Lemma mem_In (p : Path) (l : list Path) : mem p l = true <-> In p l.
Proof.
  unfold mem. rewrite existsb_exists. split.
  - intros (q & Hq & E). apply eqb_eq in E. now subst.
  - intros H. exists p. split; [exact H | apply eqb_refl].
Qed.

Lemma mem_not_In (p : Path) (l : list Path) : mem p l = false <-> ~ In p l.
Proof.
  rewrite <- mem_In. destruct (mem p l); split; intros; congruence.
Qed.

(** A single clean component parses to itself. *)
Lemma of_str_component (s : string) :
  pystr.contains "/" s = false -> keep_part s = true ->
  of_str s = mkPath "" [s].
Proof.
  intros Hs Hk. unfold of_str.
  rewrite (pystr_facts.leading_without _ _ Hs),
          (pystr_facts.split_without_sep _ _ Hs).
  simpl. now rewrite Hk.
Qed.

Lemma truediv_component (d : Path) (s : string) :
  pystr.contains "/" s = false -> keep_part s = true ->
  d </> s = mkPath (root d) (parts d ++ [s]).
Proof.
  intros Hs Hk. unfold truediv. now rewrite (of_str_component _ Hs Hk).
Qed.

Lemma name_snoc (r : string) (ps : list string) (s : string) :
  name (mkPath r (ps ++ [s])) = s.
Proof. unfold name; simpl. apply last_last. Qed.

Lemma parent_snoc (d : Path) (s : string) :
  parent (mkPath (root d) (parts d ++ [s])) = d.
Proof.
  unfold parent; simpl. rewrite removelast_last.
  destruct d as [r ps]; simpl. now destruct ps.
Qed.

(** Every path that [Path(s)] builds is well formed. *)
Lemma of_str_well_formed (s : string) : well_formed (of_str s) = true.
Proof.
  unfold well_formed, of_str; simpl.
  apply forallb_forall. intros c Hc.
  apply filter_In in Hc as [Hin Hk]. rewrite Hk; simpl.
  pose proof (pystr_facts.split_pieces "/" s) as F.
  rewrite Forall_forall in F. now rewrite (F _ Hin).
Qed.

Lemma name_without_sep (p : Path) :
  well_formed p = true -> pystr.contains "/" (name p) = false.
Proof.
  unfold well_formed, name. intros H.
  destruct (parts p) as [|c cs] eqn:E; [reflexivity|].
  rewrite forallb_forall in H.
  assert (Hin : In (last (c :: cs) "") (c :: cs)).
  { destruct (exists_last (l := c :: cs)) as (l' & a & ->); [discriminate|].
    rewrite last_last. apply in_or_app; right; now left. }
  specialize (H _ Hin). apply andb_true_iff in H as [_ H].
  now apply negb_true_iff in H.
Qed.

Lemma stem_without_sep (p : Path) :
  well_formed p = true -> pystr.contains "/" (stem p) = false.
Proof.
  intros H. pose proof (name_without_sep _ H) as Hn.
  unfold stem.
  destruct (pystr.rfind "." (name p)) as [i|]; [|exact Hn].
  destruct ((0 <? i) && (i <? String.length (name p) - 1))%nat; [|exact Hn].
  destruct (pystr.contains "/" (substring 0 i (name p))) eqn:E;
    [|reflexivity].
  apply pystr_facts.contains_substring in E. congruence.
Qed.

Lemma output_name_kept (s : string) :
  keep_part (s ++ "_processed.mp3") = true.
Proof.
  destruct s as [|a s]; [reflexivity|].
  unfold keep_part; simpl.
  destruct (Ascii.eqb a "."); [|reflexivity].
  now destruct s.
Qed.

Lemma output_name_without_sep (p : Path) :
  well_formed p = true ->
  pystr.contains "/" (stem p ++ "_processed.mp3") = false.
Proof.
  intros H. rewrite pystr_facts.contains_append, (stem_without_sep _ H).
  reflexivity.
Qed.

End pathlib_facts.

(** ** The classification of [subprocess.run] against the specification *)

Lemma timeout_test (elapsed : Q) :
  Qle_bool elapsed 600 = if Qlt_le_dec 600 elapsed then false else true.
Proof.
  destruct (Qlt_le_dec 600 elapsed) as [Hlt|Hle].
  - destruct (Qle_bool elapsed 600) eqn:E; [|reflexivity].
    apply Qle_bool_iff in E. exfalso. exact (Qlt_not_le _ _ Hlt E).
  - now apply Qle_bool_iff.
Qed.

Lemma str_or_spec (x y : string) :
  str_or x y = if string_dec x "" then y else x.
Proof.
  unfold str_or. destruct (string_dec x "") as [->|N]; [reflexivity|].
  apply String.eqb_neq in N. now rewrite N.
Qed.

Lemma exit_test (rc : Z) :
  (rc =? 0)%Z = if Z.eq_dec rc 0 then true else false.
Proof.
  destruct (Z.eq_dec rc 0) as [->|N]; [reflexivity|]. now apply Z.eqb_neq.
Qed.

Section RunFacts.

Variable self : ProcessingWorker.
Variable world : World.

(** One iteration: its counters and its trace. *)
Lemma process_file_eq (total i : nat) (f : Path) (c : Counters) :
  process_file self world total i f c =
    (tt, counted (classify (behaviour_at self world i f)) c,
     item_trace self world total i f).
Proof.
  unfold process_file, item_trace, closing_log, behaviour_at, argv.
  unfold bind, signal_emit, subprocess_run; simpl.
  destruct (script world i _) as [elapsed rc out err | e]; simpl.
  - rewrite timeout_test.
    destruct (Qlt_le_dec 600 elapsed); simpl; [reflexivity|].
    rewrite exit_test. destruct (Z.eq_dec rc 0); simpl; [reflexivity|].
    now rewrite str_or_spec.
  - reflexivity.
Qed.

(** The loop: the items before the first cancellation are processed in
    order; a cancellation leaves its note and nothing else. *)
Lemma for_each_eq (total : nat) (items : list Path) :
  forall (i : nat) (c : Counters),
    let a := attempts (_cancelled world) i (List.length items) in
    for_each self world total i items c =
      (tt, items_count self world i (firstn a items) c,
       (items_trace self world total i (firstn a items)
        ++ (if (a <? List.length items)%nat then [cancel_note] else []))%list).
Proof.
  induction items as [|f items IH]; intros i c; simpl.
  - reflexivity.
  - destruct (_cancelled world i) eqn:Hc; simpl.
    + reflexivity.
    + unfold bind. rewrite process_file_eq, IH.
      cbv zeta. rewrite app_assoc. reflexivity.
Qed.

Lemma run_eq :
  let n := List.length (files self) in
  let a := attempts (_cancelled world) 0 n in
  let c := items_count self world 0 (firstn a (files self)) (mkCounters 0 0) in
  run self world =
    (items_trace self world n 0 (firstn a (files self))
     ++ (if (a <? n)%nat then [cancel_note] else [])
     ++ [emit (progress n n "Complete");
         emit (all_complete (successful c) (failed c))])%list.
Proof.
  unfold run, run_body, bind. rewrite for_each_eq.
  cbv zeta. unfold signal_emit, get_successful, get_failed. simpl.
  rewrite <- app_assoc. reflexivity.
Qed.

End RunFacts.

(** ** Reading traces piecewise *)

Lemma completions_app (t u : list effect) :
  completions (t ++ u) = (completions t ++ completions u)%list.
Proof.
  induction t as [|e t IH]; [reflexivity|].
  destruct e as [[]|]; simpl; now rewrite IH.
Qed.

Lemma spawned_app (t u : list effect) :
  spawned (t ++ u) = (spawned t ++ spawned u)%list.
Proof.
  induction t as [|e t IH]; [reflexivity|].
  destruct e as [[]|]; simpl; now rewrite IH.
Qed.

Lemma progress_marks_app (t u : list effect) :
  progress_marks (t ++ u) = (progress_marks t ++ progress_marks u)%list.
Proof.
  induction t as [|e t IH]; [reflexivity|].
  destruct e as [[]|]; simpl; now rewrite IH.
Qed.

Lemma summaries_app (t u : list effect) :
  summaries (t ++ u) = (summaries t ++ summaries u)%list.
Proof.
  induction t as [|e t IH]; [reflexivity|].
  destruct e as [[]|]; simpl; now rewrite IH.
Qed.

Lemma milestones_app (t u : list effect) :
  milestones (t ++ u) = (milestones t ++ milestones u)%list.
Proof.
  induction t as [|e t IH]; [reflexivity|].
  destruct e as [[]|]; simpl; now rewrite IH.
Qed.

Lemma cancel_tail_silent (b : bool) :
  let t := if b then [cancel_note] else [] in
  completions t = [] /\ spawned t = [] /\ progress_marks t = []
  /\ summaries t = [] /\ milestones t = [].
Proof. destruct b; repeat split. Qed.

Section ItemsFacts.

Variable self : ProcessingWorker.
Variable world : World.

Lemma spawned_items (total : nat) (items : list Path) :
  forall i, spawned (items_trace self world total i items)
            = map (argv self) items.
Proof.
  induction items as [|f items IH]; intros i; simpl; [reflexivity|].
  now rewrite IH.
Qed.

Lemma completions_items_names (total : nat) (items : list Path) :
  forall i, map filename_of (completions (items_trace self world total i items))
            = map pathlib.name items.
Proof.
  induction items as [|f items IH]; intros i; simpl; [reflexivity|].
  now rewrite IH.
Qed.

Lemma completions_items_length (total : nat) (items : list Path) :
  forall i, List.length (completions (items_trace self world total i items))
            = List.length items.
Proof.
  induction items as [|f items IH]; intros i; simpl; [reflexivity|].
  now rewrite IH.
Qed.

Lemma progress_items (total : nat) (items : list Path) :
  forall i, progress_marks (items_trace self world total i items)
            = map (fun j => (j, total)) (seq i (List.length items)).
Proof.
  induction items as [|f items IH]; intros i; simpl; [reflexivity|].
  now rewrite IH.
Qed.

Lemma summaries_items (total : nat) (items : list Path) :
  forall i, summaries (items_trace self world total i items) = [].
Proof.
  induction items as [|f items IH]; intros i; simpl; [reflexivity|].
  apply IH.
Qed.

Lemma milestones_items (total : nat) (items : list Path) :
  forall i, milestones (items_trace self world total i items)
            = flat_map (fun jf => [inl (fst jf, total); inr (argv self (snd jf))])
                (combine (seq i (List.length items)) items).
Proof.
  induction items as [|f items IH]; intros i; simpl; [reflexivity|].
  now rewrite IH.
Qed.

Lemma counted_cases (o : JobOutcome) (c : Counters) :
  successful (counted o c)
    = successful c + (if fst (reported o) then 1 else 0)
  /\ failed (counted o c)
    = failed c + (if fst (reported o) then 0 else 1).
Proof. destruct o; simpl; lia. Qed.

(** The counters count the completions: [successful] the reported
    successes, [failed] the others. *)
Lemma items_count_spec (total : nat) (items : list Path) :
  forall i c,
    let cs := completions (items_trace self world total i items) in
    successful (items_count self world i items c)
      = successful c + List.length (filter succeeded cs)
    /\ failed (items_count self world i items c)
      = failed c + List.length (filter (fun x => negb (succeeded x)) cs).
Proof.
  induction items as [|f items IH]; intros i c; simpl; [lia|].
  destruct (IH (S i) (counted (classify (behaviour_at self world i f)) c))
    as [Hs Hf].
  destruct (counted_cases (classify (behaviour_at self world i f)) c)
    as [Es Ef].
  rewrite Hs, Hf, Es, Ef. unfold succeeded in *; simpl.
  destruct (fst (reported (classify (behaviour_at self world i f))));
    simpl; lia.
Qed.

End ItemsFacts.

(** ** How far the loop gets *)

Lemma attempts_le (c : nat -> bool) (n : nat) :
  forall i, attempts c i n <= n.
Proof.
  induction n as [|n IH]; intros i; simpl; [lia|].
  destruct (c i); [lia|]. specialize (IH (S i)). lia.
Qed.

Lemma attempts_at_least (c : nat -> bool) (n : nat) :
  forall i m, m <= n -> (forall j, i <= j < i + m -> c j = false) ->
              m <= attempts c i n.
Proof.
  induction n as [|n IH]; intros i m Hm Hc; simpl; [lia|].
  destruct m as [|m]; [lia|].
  rewrite (Hc i) by lia.
  apply le_n_S, IH; [lia|]. intros j Hj. apply Hc. lia.
Qed.

Lemma attempts_all (c : nat -> bool) (n i : nat) :
  (forall j, i <= j < i + n -> c j = false) -> attempts c i n = n.
Proof.
  intros Hc. pose proof (attempts_le c n i).
  pose proof (attempts_at_least c n i n (le_n n) Hc). lia.
Qed.

Lemma attempts_until (c : nat -> bool) (n : nat) :
  forall i m, m < n -> (forall j, i <= j < i + m -> c j = false) ->
              c (i + m) = true -> attempts c i n = m.
Proof.
  induction n as [|n IH]; intros i m Hm Hc Ht; [lia|]. simpl.
  destruct m as [|m].
  - rewrite Nat.add_0_r in Ht. now rewrite Ht.
  - rewrite (Hc i) by lia. f_equal. apply IH; [lia| |].
    + intros j Hj. apply Hc. lia.
    + now rewrite Nat.add_succ_comm.
Qed.

(** ** A run, read as a whole *)

Lemma filter_split_length {A} (p : A -> bool) (l : list A) :
  List.length (filter p l) + List.length (filter (fun x => negb (p x)) l)
  = List.length l.
Proof.
  induction l as [|x l IH]; simpl; [reflexivity|].
  destruct (p x); simpl; lia.
Qed.

Section WholeRun.

Variable self : ProcessingWorker.
Variable world : World.

Lemma reached_le : reached self world <= List.length (files self).
Proof. apply attempts_le. Qed.

Lemma reached_items_length :
  List.length (firstn (reached self world) (files self)) = reached self world.
Proof. apply firstn_length_le, reached_le. Qed.

Lemma run_decomposed :
  let n := List.length (files self) in
  let a := reached self world in
  let c := items_count self world 0 (firstn a (files self)) (mkCounters 0 0) in
  run self world =
    (items_trace self world n 0 (firstn a (files self))
     ++ (if (a <? n)%nat then [cancel_note] else [])
     ++ [emit (progress n n "Complete");
         emit (all_complete (successful c) (failed c))])%list.
Proof. apply run_eq. Qed.

Lemma run_spawned :
  spawned (run self world)
  = map (argv self) (firstn (reached self world) (files self)).
Proof.
  rewrite run_decomposed, !spawned_app, spawned_items.
  destruct (cancel_tail_silent
              (reached self world <? List.length (files self))%nat)
    as (_ & -> & _).
  simpl. now rewrite app_nil_r.
Qed.

Lemma run_spawned_length :
  List.length (spawned (run self world)) = reached self world.
Proof. rewrite run_spawned, length_map. apply reached_items_length. Qed.

Lemma run_completions :
  completions (run self world)
  = completions (items_trace self world (List.length (files self)) 0
                   (firstn (reached self world) (files self))).
Proof.
  rewrite run_decomposed, !completions_app.
  destruct (cancel_tail_silent
              (reached self world <? List.length (files self))%nat)
    as (-> & _).
  simpl. now rewrite app_nil_r.
Qed.

Lemma run_completions_names :
  map filename_of (completions (run self world))
  = map pathlib.name (firstn (reached self world) (files self)).
Proof. rewrite run_completions. apply completions_items_names. Qed.

Lemma run_completions_length :
  List.length (completions (run self world)) = reached self world.
Proof.
  rewrite run_completions, completions_items_length.
  apply reached_items_length.
Qed.

Lemma run_progress :
  progress_marks (run self world)
  = (map (fun j => (j, List.length (files self))) (seq 0 (reached self world))
     ++ [(List.length (files self), List.length (files self))])%list.
Proof.
  rewrite run_decomposed, !progress_marks_app, progress_items.
  destruct (cancel_tail_silent
              (reached self world <? List.length (files self))%nat)
    as (_ & _ & -> & _).
  now rewrite reached_items_length.
Qed.

Lemma run_milestones :
  milestones (run self world)
  = (flat_map (fun jf => [inl (fst jf, List.length (files self));
                          inr (argv self (snd jf))])
       (combine (seq 0 (reached self world))
                (firstn (reached self world) (files self)))
     ++ [inl (List.length (files self), List.length (files self))])%list.
Proof.
  rewrite run_decomposed, !milestones_app, milestones_items.
  destruct (cancel_tail_silent
              (reached self world <? List.length (files self))%nat)
    as (_ & _ & _ & _ & ->).
  now rewrite reached_items_length.
Qed.

Lemma run_summary :
  summaries (run self world)
  = [(List.length (filter succeeded (completions (run self world))),
      List.length (filter (fun x => negb (succeeded x))
                     (completions (run self world))))].
Proof.
  rewrite run_completions.
  rewrite run_decomposed, !summaries_app, summaries_items.
  destruct (cancel_tail_silent
              (reached self world <? List.length (files self))%nat)
    as (_ & _ & _ & -> & _).
  simpl.
  destruct (items_count_spec self world (List.length (files self))
              (firstn (reached self world) (files self)) 0 (mkCounters 0 0))
    as [-> ->].
  reflexivity.
Qed.

(** The trace ends with the final progress signal and the summary. *)
Lemma run_ends :
  exists t s f,
    run self world
    = (t ++ [emit (progress (List.length (files self))
                     (List.length (files self)) "Complete");
             emit (all_complete s f)])%list
    /\ summaries t = []
    /\ completions t = completions (run self world)
    /\ spawned t = spawned (run self world).
Proof.
  pose proof run_decomposed as E. cbv zeta in E.
  eexists (_ ++ _)%list, _, _. split; [| split; [| split]].
  - rewrite E at 1. rewrite app_assoc. reflexivity.
  - rewrite summaries_app, summaries_items.
    now destruct (reached self world <? List.length (files self))%nat.
  - rewrite E, !completions_app. simpl. now rewrite app_nil_r.
  - rewrite E, !spawned_app. simpl. now rewrite app_nil_r.
Qed.

End WholeRun.

(** ** The batch executor *)

(** C7. A run on an empty snapshot starts no process and emits exactly the
    two final notifications: progress at (0, 0), then a summary with no
    success and no failure. *)
Theorem empty_batch_summary (output_folder : option Path) (script_path : Path)
  (world : World) :
  run (mkWorker [] output_folder script_path) world
  = [emit (progress 0 0 "Complete"); emit (all_complete 0 0)].
Proof. reflexivity. Qed.

(** C9. Every attempted item moves exactly one of the two counters by
    one, the failed one unless the outcome is a success (so also for a
    timeout and for a fault of the invocation); the summary of a run
    therefore holds the number of reported successes and the number of
    reported failures, and their sum is the number of items attempted. *)
Theorem counters_partition_attempts (self : ProcessingWorker) (world : World) :
  (forall total i input_file c,
      let c' := snd (fst (process_file self world total i input_file c)) in
      match classify (behaviour_at self world i input_file) with
      | Success => successful c' = successful c + 1 /\ failed c' = failed c
      | Failure _ | TimedOut =>
          successful c' = successful c /\ failed c' = failed c + 1
      end)
  /\ exists s f,
      summaries (run self world) = [(s, f)]
      /\ s = List.length (filter succeeded (completions (run self world)))
      /\ f = List.length (filter (fun x => negb (succeeded x))
                            (completions (run self world)))
      /\ s + f = List.length (completions (run self world))
      /\ s + f = List.length (spawned (run self world)).
Proof.
  split.
  - intros total i input_file c. rewrite process_file_eq. simpl.
    destruct (classify _); simpl; split; reflexivity.
  - do 2 eexists. split; [apply run_summary|].
    split; [reflexivity|]. split; [reflexivity|].
    rewrite filter_split_length, run_completions_length, run_spawned_length.
    split; reflexivity.
Qed.

(** C4. Whether the loop ran to the end or was cancelled, the trace ends
    with a progress notification at (total, total), where total is the
    length of the whole snapshot, followed by the summary; nothing before
    them is a summary, and the summary counts the successes and failures
    of the items attempted, of which there are at most total. *)
Theorem final_notifications (self : ProcessingWorker) (world : World) :
  let total := List.length (files self) in
  exists t s f,
    run self world
    = (t ++ [emit (progress total total "Complete");
             emit (all_complete s f)])%list
    /\ summaries t = []
    /\ s = List.length (filter succeeded (completions t))
    /\ f = List.length (filter (fun x => negb (succeeded x)) (completions t))
    /\ s + f = List.length (spawned t)
    /\ List.length (spawned t) <= total.
Proof.
  intros total.
  destruct (run_ends self world) as (t & s & f & E & Hs & Hc & Hp).
  exists t, s, f. split; [exact E|]. split; [exact Hs|].
  pose proof (run_summary self world) as S.
  rewrite E in S at 1. rewrite summaries_app, Hs in S. simpl in S.
  injection S as -> ->. rewrite Hc, Hp.
  split; [reflexivity|]. split; [reflexivity|].
  rewrite filter_split_length, run_completions_length, run_spawned_length.
  split; [reflexivity | apply reached_le].
Qed.

(** C10. Progress indices count from zero: the run emits progress
    (i, total) immediately before it starts the process of the i-th item
    (0-based), for the items it attempts, in order, and then the final
    (total, total); total is the length of the snapshot throughout.  When
    no cancellation is observed the indices are 0, 1, ..., N-1, N. *)
Theorem progress_indices (self : ProcessingWorker) (world : World) :
  let total := List.length (files self) in
  let a := List.length (spawned (run self world)) in
  milestones (run self world)
  = (flat_map (fun jf => [inl (fst jf, total); inr (argv self (snd jf))])
       (combine (seq 0 a) (firstn a (files self)))
     ++ [inl (total, total)])%list
  /\ progress_marks (run self world)
     = (map (fun j => (j, total)) (seq 0 a) ++ [(total, total)])%list
  /\ ((forall j, j < total -> _cancelled world j = false) ->
      progress_marks (run self world)
      = map (fun j => (j, total)) (seq 0 (S total))).
Proof.
  intros total a. unfold a. rewrite run_spawned_length.
  split; [apply run_milestones|]. split; [apply run_progress|].
  intros Hc. rewrite run_progress. unfold reached. rewrite attempts_all.
  - rewrite seq_S, map_app. reflexivity.
  - intros j Hj. apply Hc. lia.
Qed.

(** C1. If the cancellation flag is first read as set at the top of the
    iteration of item k (1-indexed), the loop stops there: processes were
    started for items 1..k-1 only, exactly these items have a
    [file_complete] notification, in order, the cancellation is logged,
    and the summary's successful and failed counts add up to k-1. *)
Theorem cancel_stops_run (self : ProcessingWorker) (world : World) (k : nat) :
  1 <= k <= List.length (files self) ->
  (forall j, j < k - 1 -> _cancelled world j = false) ->
  _cancelled world (k - 1) = true ->
  let t := run self world in
  (exists s f, summaries t = [(s, f)] /\ s + f = k - 1)
  /\ spawned t = map (argv self) (firstn (k - 1) (files self))
  /\ map filename_of (completions t)
     = map pathlib.name (firstn (k - 1) (files self))
  /\ List.length (completions t) = k - 1
  /\ In cancel_note t.
Proof.
  intros Hk Hfalse Htrue t. unfold t.
  assert (A : reached self world = k - 1).
  { unfold reached. apply attempts_until; [lia | intros j Hj; apply Hfalse; lia | exact Htrue]. }
  split; [| split; [| split; [| split]]].
  - do 2 eexists. split; [apply run_summary|].
    now rewrite filter_split_length, run_completions_length.
  - now rewrite run_spawned, A.
  - now rewrite run_completions_names, A.
  - now rewrite run_completions_length.
  - rewrite run_decomposed. cbv zeta. rewrite A.
    replace (k - 1 <? List.length (files self))%nat with true
      by (symmetry; apply Nat.ltb_lt; lia).
    apply in_or_app; right. now left.
Qed.

(** Witness of C1 on three items, cancelled before the second. *)
Lemma cancel_stops_run_witness :
  (1 <= 2 <= List.length (files sample_worker))
  /\ (let t := run sample_worker cancelling_world in
      (exists s f, summaries t = [(s, f)] /\ s + f = 2 - 1)
      /\ spawned t = map (argv sample_worker)
                         (firstn (2 - 1) (files sample_worker))
      /\ map filename_of (completions t)
         = map pathlib.name (firstn (2 - 1) (files sample_worker))
      /\ List.length (completions t) = 2 - 1
      /\ In cancel_note t).
Proof.
  split; [simpl; lia|].
  apply (cancel_stops_run sample_worker cancelling_world 2).
  - simpl; lia.
  - intros j Hj. destruct j; [reflexivity | simpl in Hj; lia].
  - reflexivity.
Defined.

(** Witness of C10: the uncancelled sample run has progress indices
    0, 1, 2 and the final 3. *)
Lemma progress_indices_witness :
  progress_marks (run sample_worker quiet_world)
  = map (fun j => (j, 3)) (seq 0 4).
Proof.
  apply (progress_indices sample_worker quiet_world).
  intros j _. reflexivity.
Defined.

(** C3. For a well-formed input path the output path has the name
    [<stem>_processed.mp3] and lies directly in the configured output
    folder, or in the parent of the input when none is configured; the
    process of an item is started with the script followed by exactly two
    arguments, the input path and that output path, and a run starts no
    other process. *)
Theorem output_path_and_arguments (self : ProcessingWorker) (world : World) :
  forallb well_formed (files self) = true ->
  (forall f, In f (files self) ->
     let folder := match output_folder self with
                   | Some folder => folder
                   | None => pathlib.parent f
                   end in
     let out := output_path_for self f in
     out = pathlib.mkPath (pathlib.root folder)
             (pathlib.parts folder ++ [pathlib.stem f ++ "_processed.mp3"])
     /\ pathlib.name out = pathlib.stem f ++ "_processed.mp3"
     /\ pathlib.parent out = folder)
  /\ (forall total i f c,
        filter (fun e => match e with spawn _ _ => true | _ => false end)
               (snd (process_file self world total i f c))
        = [spawn [pathlib.str (script_path self); pathlib.str f;
                  pathlib.str (output_path_for self f)] 600%Q])
  /\ (exists n,
        spawned (run self world)
        = map (fun f => [pathlib.str (script_path self); pathlib.str f;
                         pathlib.str (output_path_for self f)])
              (firstn n (files self))).
Proof.
  intros Hwf. split; [| split].
  - intros f Hf folder out.
    rewrite forallb_forall in Hwf. specialize (Hwf f Hf).
    assert (E : out = pathlib.mkPath (pathlib.root folder)
                  (pathlib.parts folder ++ [pathlib.stem f ++ "_processed.mp3"])).
    { unfold out, output_path_for, folder.
      destruct (output_folder self);
        apply pathlib_facts.truediv_component;
        auto using pathlib_facts.output_name_without_sep,
                   pathlib_facts.output_name_kept. }
    split; [exact E|]. rewrite E.
    split; [apply pathlib_facts.name_snoc | apply pathlib_facts.parent_snoc].
  - intros total i f c. rewrite process_file_eq. reflexivity.
  - eexists. apply run_spawned.
Qed.

(** Witness of C3: [a.wav] with no output folder goes to
    [a_processed.mp3] beside it. *)
Lemma output_path_and_arguments_witness :
  forallb well_formed (files sample_worker) = true
  /\ pathlib.str (output_path_for sample_worker a_wav)
     = "/home/user/a_processed.mp3"
  /\ pathlib.parent (output_path_for sample_worker a_wav)
     = pathlib.parent a_wav.
Proof.
  split; [reflexivity|].
  destruct (output_path_and_arguments sample_worker quiet_world eq_refl)
    as (H & _).
  destruct (H a_wav (or_introl eq_refl)) as (_ & _ & Hparent).
  split; [reflexivity | exact Hparent].
Defined.

(** C2. The outcome of an attempted item is the one the specification
    names: the [file_complete] notification of the iteration carries the
    flag and message of that outcome ("Success" for exit status 0; the
    error text of the process, or "Unknown error" when it is empty, for
    another status; "Timeout (>10 min)" for a process still running after
    600 seconds, whatever its exit status; the description of the fault
    when the invocation raises), the counters move accordingly, and a
    timed-out item is told apart from every other outcome by what the
    iteration emits. *)
Theorem outcome_classification (self : ProcessingWorker) (world : World)
  (total i : nat) (input_file : Path) (c : Counters) :
  let b := behaviour_at self world i input_file in
  let r := process_file self world total i input_file c in
  completions (snd r)
  = [(pathlib.name input_file,
      fst (reported (classify b)), snd (reported (classify b)))]
  /\ snd (fst r) = counted (classify b) c
  /\ (forall elapsed rc out err,
        b = subprocess.Exits elapsed rc out err ->
        (600 < elapsed)%Q -> classify b = TimedOut)
  /\ (forall elapsed out err,
        b = subprocess.Exits elapsed 0 out err ->
        (elapsed <= 600)%Q -> classify b = Success)
  /\ (forall elapsed rc out err,
        b = subprocess.Exits elapsed rc out err ->
        (elapsed <= 600)%Q -> rc <> 0%Z ->
        classify b = Failure (if string_dec err "" then "Unknown error" else err))
  /\ (forall e, b = subprocess.Faults e -> classify b = Failure e)
  /\ (forall world' c',
        snd (process_file self world' total i input_file c') = snd r ->
        (classify (behaviour_at self world' i input_file) = TimedOut
         <-> classify b = TimedOut)).
Proof.
  intros b r. unfold r. rewrite process_file_eq. fold b. simpl.
  split; [reflexivity|]. split; [reflexivity|].
  split; [| split; [| split; [| split]]].
  - intros elapsed rc out err -> Hlt. simpl.
    destruct (Qlt_le_dec 600 elapsed) as [_|Hle]; [reflexivity|].
    exfalso. exact (Qlt_not_le _ _ Hlt Hle).
  - intros elapsed out err -> Hle. simpl.
    destruct (Qlt_le_dec 600 elapsed) as [Hlt|_]; [|reflexivity].
    exfalso. exact (Qlt_not_le _ _ Hlt Hle).
  - intros elapsed rc out err -> Hle Hrc. simpl.
    destruct (Qlt_le_dec 600 elapsed) as [Hlt|_].
    + exfalso. exact (Qlt_not_le _ _ Hlt Hle).
    + destruct (Z.eq_dec rc 0); [contradiction | reflexivity].
  - intros e ->. reflexivity.
  - intros world' c'. rewrite process_file_eq. unfold item_trace.
    fold b. set (b' := behaviour_at self world' i input_file).
    unfold closing_log. intros E.
    injection E as Hflag Hmsg Hlog.
    destruct (classify b') eqn:E'; destruct (classify b) eqn:Eb;
      simpl in *; try discriminate; split; congruence.
Qed.

(** Witness of C2: in the sample world the third process runs for 700
    seconds, so the item is timed out although it would exit with 0. *)
Lemma outcome_classification_witness :
  classify (behaviour_at sample_worker quiet_world 2 c_ogg) = TimedOut
  /\ completions (snd (process_file sample_worker quiet_world 3 2 c_ogg
                         (mkCounters 1 1)))
     = [("c.ogg", false, "Timeout (>10 min)")].
Proof.
  destruct (outcome_classification sample_worker quiet_world 3 2 c_ogg
              (mkCounters 1 1)) as (Hc & _ & Ht & _).
  split.
  - apply (Ht 700%Q 0%Z "" ""); reflexivity.
  - exact Hc.
Defined.

(** ** The start of a run *)

(** The output folder handed to the worker when the validations pass. *)
Lemma start_processing_runs (files_to_process : list Path)
  (script_path : Path) (form : MainWindow.Form) :
  files_to_process <> [] -> validated form = true ->
  exists folder,
    MainWindow.start_processing files_to_process script_path form
    = MainWindow.Run (mkWorker files_to_process folder script_path).
Proof.
  intros Hq Hv. unfold validated in Hv. unfold MainWindow.start_processing.
  destruct files_to_process as [|p q]; [contradiction|].
  apply andb_true_iff in Hv as [Hout Hscript]. rewrite Hscript.
  destruct (MainWindow.use_custom_output_isChecked form); simpl in *.
  - destruct (MainWindow.output_folder_exists form); simpl in *.
    + eexists; reflexivity.
    + destruct (MainWindow.mkdir_raises form); [discriminate|].
      eexists; reflexivity.
  - eexists; reflexivity.
Qed.

Lemma start_processing_refuses (files_to_process : list Path)
  (script_path : Path) (form : MainWindow.Form) :
  validated form = false ->
  exists dialog,
    MainWindow.start_processing files_to_process script_path form
    = MainWindow.NoRun dialog.
Proof.
  intros Hv. unfold validated in Hv. unfold MainWindow.start_processing.
  destruct files_to_process as [|p q]; [eexists; reflexivity|].
  destruct (MainWindow.use_custom_output_isChecked form); simpl in *.
  - destruct (MainWindow.output_folder_exists form); simpl in *.
    + rewrite Hv. eexists; reflexivity.
    + destruct (MainWindow.mkdir_raises form); simpl in *.
      * eexists; reflexivity.
      * rewrite Hv. eexists; reflexivity.
  - rewrite Hv. eexists; reflexivity.
Qed.

(** C6. When [start_processing] fails a validation (the output folder
    cannot be created, or the script is missing) it returns without
    starting a worker, so no item runs.  Otherwise, on a non-empty queue,
    it starts a worker on the queue as it stands, and in every world,
    whatever the processes do (fail, time out, cannot be started), every
    item reached without a cancellation being observed is attempted: a
    failure of one item never keeps the next one from running. *)
Theorem failures_never_abort (files_to_process : list Path)
  (script_path : Path) (form : MainWindow.Form) :
  (validated form = false ->
   exists dialog,
     MainWindow.start_processing files_to_process script_path form
     = MainWindow.NoRun dialog)
  /\ (files_to_process <> [] -> validated form = true ->
      exists self,
        MainWindow.start_processing files_to_process script_path form
        = MainWindow.Run self
        /\ files self = files_to_process
        /\ forall world n,
            n <= List.length files_to_process ->
            (forall j, j < n -> _cancelled world j = false) ->
            firstn n (spawned (run self world))
            = map (argv self) (firstn n files_to_process)
            /\ n <= List.length (completions (run self world))).
Proof.
  split; [apply start_processing_refuses|].
  intros Hq Hv.
  destruct (start_processing_runs files_to_process script_path form Hq Hv)
    as [folder E].
  eexists. split; [exact E|]. split; [reflexivity|].
  intros world n Hn Hc.
  assert (A : n <= reached (mkWorker files_to_process folder script_path) world).
  { unfold reached. apply attempts_at_least; [exact Hn|]. intros j Hj. apply Hc. lia. }
  rewrite run_spawned, run_completions_length; simpl.
  split; [|exact A].
  rewrite firstn_map, firstn_firstn. now rewrite Nat.min_l.
Qed.

(** Witness of C6: with the script in place and no custom output folder
    the sample queue runs, and although the second item fails and the
    third times out all three are attempted. *)
Lemma failures_never_abort_witness :
  validated sample_form = true
  /\ exists self,
      MainWindow.start_processing (files sample_worker) sample_script
        sample_form = MainWindow.Run self
      /\ List.length (spawned (run self quiet_world)) = 3
      /\ map succeeded (completions (run self quiet_world))
         = [true; false; false].
Proof.
  split; [reflexivity|].
  destruct (failures_never_abort (files sample_worker) sample_script
              sample_form) as [_ H].
  destruct (H ltac:(discriminate) eq_refl) as (self & E & _ & _).
  exists self. split; [exact E|].
  injection E as <-. split; reflexivity.
Defined.

(** ** The job queue *)

Module queue_facts.

Import MainWindow.

Lemma add_files_extends (files q : list Path) :
  exists added, add_files q files = (q ++ added)%list.
Proof.
  revert q; induction files as [|p files IH]; intros q; simpl.
  - exists []. now rewrite app_nil_r.
  - destruct (pathlib.mem p q); simpl.
    + apply IH.
    + destruct (IH (q ++ [p])%list) as [added E].
      exists (p :: added). rewrite E, <- app_assoc. reflexivity.
Qed.

Lemma add_files_In (files q : list Path) (x : Path) :
  In x (add_files q files) <-> In x q \/ In x files.
Proof.
  revert q; induction files as [|p files IH]; intros q; simpl.
  - tauto.
  - destruct (pathlib.mem p q) eqn:M; simpl; rewrite IH.
    + apply pathlib_facts.mem_In in M. split; [tauto|].
      intros [H|[<-|H]]; tauto.
    + rewrite in_app_iff; simpl. tauto.
Qed.

Lemma add_files_NoDup (files q : list Path) :
  NoDup q -> NoDup (add_files q files).
Proof.
  revert q; induction files as [|p files IH]; intros q Hq; simpl.
  - exact Hq.
  - destruct (pathlib.mem p q) eqn:M; simpl; apply IH; [exact Hq|].
    apply pathlib_facts.mem_not_In in M.
    apply NoDup_app; [exact Hq | repeat constructor; intros [] |].
    intros x Hx [<-|[]]. contradiction.
Qed.

(** A batch is the sequence of its adds. *)
Lemma add_files_app (files1 files2 q : list Path) :
  add_files q (files1 ++ files2) = add_files (add_files q files1) files2.
Proof.
  revert q; induction files1 as [|p files1 IH]; intros q; simpl;
    [reflexivity|].
  destruct (pathlib.mem p q); simpl; apply IH.
Qed.

(** A path that is not queued goes to the end of the queue. *)
Lemma add_files_one (q : list Path) (p : Path) :
  ~ In p q -> add_files q [p] = (q ++ [p])%list.
Proof.
  intros H. apply pathlib_facts.mem_not_In in H. simpl. now rewrite H.
Qed.

(** New paths, each given once, are queued in the order given. *)
Lemma add_files_fresh (files q : list Path) :
  NoDup files -> (forall p, In p files -> ~ In p q) ->
  add_files q files = (q ++ files)%list.
Proof.
  revert q; induction files as [|p files IH]; intros q Hnd Hnew; simpl.
  - now rewrite app_nil_r.
  - inversion Hnd as [|? ? Hp Hnd']; subst.
    assert (M : pathlib.mem p q = false).
    { apply pathlib_facts.mem_not_In, Hnew. now left. }
    rewrite M; simpl. rewrite IH; [now rewrite <- app_assoc | exact Hnd' |].
    intros x Hx Hin. apply in_app_iff in Hin as [Hin | [<- | []]].
    + apply (Hnew x); [now right | exact Hin].
    + contradiction.
Qed.

Lemma add_files_kept (files q : list Path) (p : Path) :
  nth_error (add_files (q ++ [p]) files) (List.length q) = Some p.
Proof.
  destruct (add_files_extends files (q ++ [p])) as [added ->].
  rewrite <- app_assoc. rewrite nth_error_app2 by lia.
  now rewrite Nat.sub_diag.
Qed.

(** What an add puts behind the queue was given and was not queued. *)
Lemma add_files_new (files : list Path) :
  forall q j y,
    nth_error (add_files q files) j = Some y -> List.length q <= j ->
    ~ In y q /\ In y files.
Proof.
  induction files as [|p files IH]; intros q j y Hy Hj; simpl in Hy.
  - assert (j < List.length q) by (apply nth_error_Some; congruence). lia.
  - destruct (pathlib.mem p q) eqn:M; simpl in Hy.
    + destruct (IH q j y Hy Hj) as [Hq Hf]. split; [exact Hq | now right].
    + apply pathlib_facts.mem_not_In in M.
      destruct (Nat.eq_dec j (List.length q)) as [-> | Hne].
      * rewrite add_files_kept in Hy. injection Hy as <-.
        split; [exact M | now left].
      * destruct (IH (q ++ [p])%list j y Hy) as [Hq Hf].
        { rewrite length_app; simpl; lia. }
        split; [|now right]. intros Hin. apply Hq, in_app_iff. now left.
Qed.

(** The new entries stand in the order of their first occurrences in
    the list given. *)
Lemma add_files_order (files : list Path) :
  forall q i j x y,
    nth_error (add_files q files) i = Some x ->
    nth_error (add_files q files) j = Some y ->
    List.length q <= i -> i < j ->
    exists a, nth_error files a = Some x
              /\ forall b, nth_error files b = Some y -> a < b.
Proof.
  induction files as [|p files IH]; intros q i j x y Hx Hy Hi Hij;
    simpl in Hx, Hy.
  - assert (i < List.length q) by (apply nth_error_Some; congruence). lia.
  - destruct (pathlib.mem p q) eqn:M; simpl in Hx, Hy.
    + destruct (IH q i j x y Hx Hy Hi Hij) as (a & Ha & Hb).
      exists (S a). split; [exact Ha|].
      intros [|b] Hb'; simpl in Hb'.
      * injection Hb' as ->. apply pathlib_facts.mem_In in M.
        destruct (add_files_new files q j y Hy) as [Hq _]; [lia|].
        contradiction.
      * apply Hb in Hb'. lia.
    + assert (Hlen : List.length (q ++ [p]) = S (List.length q)).
      { rewrite length_app; simpl; lia. }
      assert (Hyp : y <> p).
      { destruct (add_files_new files (q ++ [p])%list j y Hy) as [Hq _];
          [lia|].
        intros ->. apply Hq, in_app_iff. right. now left. }
      destruct (Nat.eq_dec i (List.length q)) as [-> | Hne].
      * rewrite add_files_kept in Hx. injection Hx as <-.
        exists 0. split; [reflexivity|].
        intros [|b] Hb'; simpl in Hb'; [|lia].
        injection Hb' as ->. contradiction.
      * destruct (IH (q ++ [p])%list i j x y Hx Hy) as (a & Ha & Hb);
          [lia | exact Hij |].
        exists (S a). split; [exact Ha|].
        intros [|b] Hb'; simpl in Hb'.
        -- injection Hb' as ->. contradiction.
        -- apply Hb in Hb'. lia.
Qed.

Lemma list_remove_filter (p : Path) (q : list Path) :
  NoDup q ->
  list_remove p q = filter (fun x => negb (pathlib.eqb x p)) q.
Proof.
  induction q as [|y q IH]; intros Hq; simpl; [reflexivity|].
  inversion Hq as [|? ? Hy Hq']; subst.
  destruct (pathlib.eqb y p) eqn:E; simpl.
  - apply pathlib_facts.eqb_eq in E; subst y.
    symmetry. apply forallb_filter_id, forallb_forall.
    intros x Hx. apply negb_true_iff.
    destruct (pathlib.eqb x p) eqn:E; [|reflexivity].
    apply pathlib_facts.eqb_eq in E; subst x. contradiction.
  - now rewrite IH.
Qed.

Lemma filter_NoDup {A} (f : A -> bool) (l : list A) :
  NoDup l -> NoDup (filter f l).
Proof.
  induction l as [|x l IH]; intros H; simpl; [constructor|].
  inversion H as [|? ? Hx Hl]; subst.
  destruct (f x); [constructor|]; auto.
  intros Hin. apply filter_In in Hin as [Hin _]. contradiction.
Qed.

Lemma remove_selected_filter (selected q : list Path) :
  NoDup q ->
  remove_selected q selected
  = filter (fun x => negb (pathlib.mem x selected)) q.
Proof.
  revert q; induction selected as [|p selected IH]; intros q Hq; simpl.
  - symmetry. apply forallb_filter_id, forallb_forall. reflexivity.
  - destruct (pathlib.mem p q) eqn:M.
    + rewrite IH, (list_remove_filter p q Hq)
        by (rewrite (list_remove_filter p q Hq); now apply filter_NoDup).
      clear. induction q as [|x q IHq]; simpl; [reflexivity|].
      unfold pathlib.mem at 2; simpl. fold (pathlib.mem x selected).
      destruct (pathlib.eqb x p); simpl; [exact IHq|].
      destruct (pathlib.mem x selected); simpl; now rewrite IHq.
    + rewrite (IH q Hq). apply pathlib_facts.mem_not_In in M.
      apply filter_ext_in. intros x Hx.
      unfold pathlib.mem at 2; simpl. fold (pathlib.mem x selected).
      destruct (pathlib.eqb x p) eqn:E; [|reflexivity].
      apply pathlib_facts.eqb_eq in E; subst x. contradiction.
Qed.

Lemma remove_selected_absent (selected q : list Path) :
  (forall p, In p selected -> ~ In p q) -> remove_selected q selected = q.
Proof.
  induction selected as [|p selected IH]; intros H; simpl; [reflexivity|].
  assert (M : pathlib.mem p q = false).
  { apply pathlib_facts.mem_not_In, H. now left. }
  rewrite M. apply IH. intros x Hx. apply H. now right.
Qed.

Lemma perform_NoDup (a : QueueAction) (q : list Path) :
  NoDup q -> NoDup (perform q a).
Proof.
  intros Hq. destruct a as [files | selected |]; simpl.
  - now apply add_files_NoDup.
  - rewrite remove_selected_filter by exact Hq. now apply filter_NoDup.
  - constructor.
Qed.

Lemma queue_after_NoDup (actions : list QueueAction) :
  NoDup (queue_after actions).
Proof.
  unfold queue_after.
  assert (G : forall q, NoDup q -> NoDup (fold_left perform actions q)).
  { induction actions as [|a actions IH]; intros q Hq; simpl; [exact Hq|].
    apply IH, perform_NoDup, Hq. }
  apply G. constructor.
Qed.

End queue_facts.

(** C5. The queue never holds a path twice, whatever the user does; an
    add only appends, so the paths already queued keep their positions
    (a path stays where its first insertion put it); adding a path that
    is already queued changes nothing, and adding the same path twice to
    an empty queue leaves it there once.  Insertion order is preserved:
    adding a list is adding its paths one after the other, a path that
    is not queued goes to the end, so new paths given once each are
    queued in the order given, and in general the new entries stand in
    the order of their first occurrences in the list given. *)
Theorem queue_without_duplicates :
  (forall actions, NoDup (queue_after actions))
  /\ (forall q files,
        exists added, MainWindow.add_files q files = (q ++ added)%list)
  /\ (forall q files x,
        In x (MainWindow.add_files q files) <-> In x q \/ In x files)
  /\ (forall q p files,
        nth_error (MainWindow.add_files (q ++ [p]) files) (List.length q)
        = Some p)
  /\ (forall q1 p q2,
        MainWindow.add_files (q1 ++ p :: q2) [p] = (q1 ++ p :: q2)%list)
  /\ (forall p,
        MainWindow.add_files [] [p; p] = [p]
        /\ MainWindow.add_files (MainWindow.add_files [] [p]) [p] = [p])
  /\ (forall q files1 files2,
        MainWindow.add_files q (files1 ++ files2)
        = MainWindow.add_files (MainWindow.add_files q files1) files2)
  /\ (forall q p, ~ In p q -> MainWindow.add_files q [p] = (q ++ [p])%list)
  /\ (forall q files,
        NoDup files -> (forall p, In p files -> ~ In p q) ->
        MainWindow.add_files q files = (q ++ files)%list)
  /\ (forall q files i j x y,
        nth_error (MainWindow.add_files q files) i = Some x ->
        nth_error (MainWindow.add_files q files) j = Some y ->
        List.length q <= i -> i < j ->
        x <> y
        /\ ~ In x q /\ ~ In y q
        /\ exists a, nth_error files a = Some x
                     /\ forall b, nth_error files b = Some y -> a < b)
  /\ (forall a b,
        a <> b ->
        MainWindow.add_files [] [b; a; a; b] = [b; a]
        /\ MainWindow.add_files [a] [b; a] = [a; b]).
Proof.
  split; [apply queue_facts.queue_after_NoDup|].
  split; [intros; apply queue_facts.add_files_extends|].
  split; [intros; apply queue_facts.add_files_In|].
  split; [intros; apply queue_facts.add_files_kept|].
  split; [| split].
  - intros q1 p q2. simpl.
    replace (pathlib.mem p (q1 ++ p :: q2)) with true; [reflexivity|].
    symmetry. apply pathlib_facts.mem_In, in_elt.
  - intros p. simpl. unfold pathlib.mem; simpl.
    rewrite pathlib_facts.eqb_refl. split; reflexivity.
  - split; [intros; apply queue_facts.add_files_app|].
    split; [intros q p; apply queue_facts.add_files_one|].
    split; [intros q files; apply queue_facts.add_files_fresh|].
    split.
    + intros q files i j x y Hx Hy Hi Hij.
      destruct (queue_facts.add_files_new files q i x Hx Hi) as [Hxq _].
      destruct (queue_facts.add_files_new files q j y Hy) as [Hyq _];
        [lia|].
      destruct (queue_facts.add_files_order files q i j x y Hx Hy Hi Hij)
        as (a & Ha & Hb).
      split; [|split; [exact Hxq | split; [exact Hyq | now exists a]]].
      intros ->. apply Hb in Ha. lia.
    + intros a b Hab.
      assert (E : pathlib.eqb a b = false).
      { destruct (pathlib.eqb a b) eqn:E; [|reflexivity].
        now apply pathlib_facts.eqb_eq in E. }
      assert (E' : pathlib.eqb b a = false).
      { destruct (pathlib.eqb b a) eqn:E'; [|reflexivity].
        apply pathlib_facts.eqb_eq in E'. now subst. }
      unfold MainWindow.add_files, pathlib.mem; simpl.
      rewrite !pathlib_facts.eqb_refl, ?E, ?E'; simpl.
      rewrite ?pathlib_facts.eqb_refl, ?E, ?E'; simpl.
      split; reflexivity.
Qed.

(** Witness of C5: a list that names two new paths twice each queues
    them once, in the order of their first occurrences; a path already
    queued keeps its place before a new one. *)
Lemma queue_without_duplicates_witness :
  MainWindow.add_files [] [b_mp3; a_wav; a_wav; b_mp3] = [b_mp3; a_wav]
  /\ MainWindow.add_files [a_wav] [b_mp3; a_wav] = [a_wav; b_mp3].
Proof.
  destruct queue_without_duplicates
    as (_ & _ & _ & _ & _ & _ & _ & _ & _ & _ & H).
  apply H. discriminate.
Defined.

(** C8. Removing paths that are not in the queue leaves the queue as it
    is, contents, order and length; on a queue the user can reach (one
    without duplicates) [remove_selected] takes out exactly the selected
    paths that are present and keeps the others in order. *)
Theorem remove_absent_is_noop :
  (forall q selected,
      (forall p, In p selected -> ~ In p q) ->
      MainWindow.remove_selected q selected = q)
  /\ (forall q selected,
        NoDup q ->
        MainWindow.remove_selected q selected
        = filter (fun x => negb (pathlib.mem x selected)) q)
  /\ (forall actions selected,
        MainWindow.remove_selected (queue_after actions) selected
        = filter (fun x => negb (pathlib.mem x selected))
            (queue_after actions)).
Proof.
  split; [| split].
  - intros q selected. apply queue_facts.remove_selected_absent.
  - intros q selected. apply queue_facts.remove_selected_filter.
  - intros actions selected.
    apply queue_facts.remove_selected_filter, queue_facts.queue_after_NoDup.
Qed.

(** Witness of C8: removing [c.ogg] from a queue that holds [a.wav] and
    [b.mp3] changes nothing; removing [a.wav] leaves [b.mp3]. *)
Lemma remove_absent_is_noop_witness :
  MainWindow.remove_selected [a_wav; b_mp3] [c_ogg] = [a_wav; b_mp3]
  /\ MainWindow.remove_selected [a_wav; b_mp3] [a_wav] = [b_mp3].
Proof.
  destruct remove_absent_is_noop as (Habsent & Hpresent & _).
  split.
  - apply Habsent. intros p [<-|[]] [E|[E|[]]]; discriminate E.
  - rewrite Hpresent; [reflexivity|].
    constructor; [intros [E|[]]; discriminate E|].
    constructor; [intros [] | constructor].
Defined.

(** * Further properties of the code *)

(** ** Output paths *)

Module output_facts.

Lemma append_length (a b : string) :
  String.length (a ++ b) = String.length a + String.length b.
Proof. induction a as [|x a IH]; simpl; [reflexivity | now rewrite IH]. Qed.

Lemma append_cancel_l (a x y : string) : a ++ x = a ++ y -> x = y.
Proof.
  induction a as [|c a IH]; simpl; intros H; [exact H|].
  injection H as H. now apply IH.
Qed.

Lemma append_cancel_r (s : string) :
  forall a b, a ++ s = b ++ s -> a = b.
Proof.
  induction a as [|x a IH]; intros [|y b] H; simpl in *.
  - reflexivity.
  - apply (f_equal String.length) in H. simpl in H.
    rewrite append_length in H. lia.
  - apply (f_equal String.length) in H. simpl in H.
    rewrite append_length in H. lia.
  - injection H as -> H. f_equal. now apply IH.
Qed.

(** [rfind] points at an occurrence of the character. *)
Lemma rfind_splits (c : ascii) (s : string) :
  forall i, pystr.rfind c s = Some i ->
            exists r, s = substring 0 i s ++ String c r.
Proof.
  induction s as [|a s IH]; intros i H; simpl in H; [discriminate|].
  destruct (pystr.rfind c s) as [j|].
  - injection H as <-. destruct (IH j eq_refl) as [r E].
    exists r. simpl. now rewrite <- E.
  - destruct (Ascii.eqb a c) eqn:Ea; [|discriminate].
    injection H as <-. apply Ascii.eqb_eq in Ea; subst a.
    exists s. now destruct s.
Qed.

(** The name of a path is its stem followed by nothing or by a suffix
    that starts with a dot. *)
Lemma name_is_stem_and_suffix (p : Path) :
  exists rest,
    pathlib.name p = pathlib.stem p ++ rest
    /\ (rest = "" \/ exists r, rest = String "." r).
Proof.
  unfold pathlib.stem.
  destruct (pystr.rfind "." (pathlib.name p)) as [i|] eqn:E.
  - destruct ((0 <? i) && (i <? String.length (pathlib.name p) - 1))%nat.
    + destruct (rfind_splits _ _ _ E) as [r Hr].
      exists (String "." r). split; [exact Hr | right; now exists r].
    + exists "". split; [|now left].
      clear. induction (pathlib.name p) as [|c s IH]; simpl; congruence.
  - exists "". split; [|now left].
    clear. induction (pathlib.name p) as [|c s IH]; simpl; congruence.
Qed.

Lemma output_path_shape (self : ProcessingWorker) (f : Path) :
  well_formed f = true ->
  output_path_for self f
  = pathlib.mkPath (pathlib.root (output_dir self f))
      (pathlib.parts (output_dir self f)
       ++ [pathlib.stem f ++ "_processed.mp3"]).
Proof.
  intros H. unfold output_path_for, output_dir.
  destruct (output_folder self);
    apply pathlib_facts.truediv_component;
    auto using pathlib_facts.output_name_without_sep,
               pathlib_facts.output_name_kept.
Qed.

Lemma output_name_differs (f : Path) :
  pathlib.stem f ++ "_processed.mp3" <> pathlib.name f.
Proof.
  intros E. destruct (name_is_stem_and_suffix f) as (rest & Hn & Hrest).
  rewrite Hn in E. apply append_cancel_l in E.
  destruct Hrest as [-> | [r ->]]; discriminate E.
Qed.

End output_facts.

(** X1. The output path of an item is never the item itself, whatever
    the output folder: its last component is the stem followed by
    [_processed.mp3], and no file name is its own stem followed by that,
    so the external script is never told to write over the file it
    reads. *)
Theorem output_never_overwrites_input (self : ProcessingWorker) (f : Path) :
  well_formed f = true ->
  output_path_for self f <> f
  /\ pathlib.name (output_path_for self f) <> pathlib.name f.
Proof.
  intros H. rewrite (output_facts.output_path_shape self f H).
  assert (N : pathlib.name
                (pathlib.mkPath (pathlib.root (output_dir self f))
                   (pathlib.parts (output_dir self f)
                    ++ [pathlib.stem f ++ "_processed.mp3"]))
              <> pathlib.name f).
  { rewrite pathlib_facts.name_snoc. apply output_facts.output_name_differs. }
  split; [|exact N]. intros E. apply N. now rewrite E.
Qed.

(** Witness of X1: an input that already ends in [_processed.mp3] is
    still written elsewhere. *)
Lemma output_never_overwrites_input_witness :
  well_formed (pathlib.of_str "/home/user/a_processed.mp3") = true
  /\ output_path_for sample_worker (pathlib.of_str "/home/user/a_processed.mp3")
     <> pathlib.of_str "/home/user/a_processed.mp3".
Proof.
  split; [reflexivity|].
  apply (output_never_overwrites_input sample_worker). reflexivity.
Defined.

(** X2. Two items are sent to the same output path exactly when they
    have the same stem and the same output directory: with an output
    folder configured, every pair of inputs with equal stems collides,
    wherever the inputs lie and whatever their extensions; without one,
    the inputs must also lie in the same directory. *)
Theorem outputs_collide_iff_same_stem (self : ProcessingWorker) (f g : Path) :
  well_formed f = true -> well_formed g = true ->
  (output_path_for self f = output_path_for self g
   <-> output_dir self f = output_dir self g
       /\ pathlib.stem f = pathlib.stem g).
Proof.
  intros Hf Hg.
  rewrite (output_facts.output_path_shape self f Hf),
          (output_facts.output_path_shape self g Hg).
  split.
  - intros E. injection E as Hroot Hparts.
    apply app_inj_tail in Hparts as [Hparts Hname].
    split.
    + destruct (output_dir self f), (output_dir self g); simpl in *.
      now subst.
    + now apply output_facts.append_cancel_r in Hname.
  - intros [-> ->]. reflexivity.
Qed.

(** Witness of X2: with the output folder [/out], [/home/user/a.wav] and
    [/srv/a.flac] are both written to the same file. *)
Lemma outputs_collide_iff_same_stem_witness :
  output_path_for
    (mkWorker [] (Some (pathlib.of_str "/out")) sample_script) a_wav
  = output_path_for
      (mkWorker [] (Some (pathlib.of_str "/out")) sample_script)
      (pathlib.of_str "/srv/a.flac").
Proof.
  apply (outputs_collide_iff_same_stem
           (mkWorker [] (Some (pathlib.of_str "/out")) sample_script)
           a_wav (pathlib.of_str "/srv/a.flac") eq_refl eq_refl).
  split; reflexivity.
Defined.

(** ** What a run reads *)

Module run_reads.

Lemma attempts_agree (c c' : nat -> bool) (n : nat) :
  forall i, (forall j, i <= j < i + n -> c j = c' j) ->
            attempts c i n = attempts c' i n.
Proof.
  induction n as [|n IH]; intros i H; simpl; [reflexivity|].
  rewrite <- (H i) by lia. destruct (c i); [reflexivity|].
  f_equal. apply IH. intros j Hj. apply H. lia.
Qed.

Lemma items_agree (self : ProcessingWorker) (w w' : World) (total : nat)
  (items : list Path) :
  forall i,
    (forall j args, i <= j < i + List.length items ->
                    script w j args = script w' j args) ->
    items_trace self w total i items = items_trace self w' total i items
    /\ forall c, items_count self w i items c = items_count self w' i items c.
Proof.
  induction items as [|f items IH]; intros i H; simpl; [now split|].
  assert (B : behaviour_at self w i f = behaviour_at self w' i f).
  { unfold behaviour_at. apply H. simpl; lia. }
  destruct (IH (S i)) as [Ht Hc].
  { intros j args Hj. apply H. simpl; lia. }
  split.
  - unfold item_trace. now rewrite B, Ht.
  - intros c. now rewrite B, Hc.
Qed.

(** The successes among the items of a trace are the clean exits. *)
Lemma successes_are_clean_exits (self : ProcessingWorker) (w : World)
  (total : nat) (items : list Path) :
  forall i,
    map succeeded (completions (items_trace self w total i items))
    = map (fun jf => exited_cleanly (behaviour_at self w (fst jf) (snd jf)))
        (combine (seq i (List.length items)) items).
Proof.
  induction items as [|f items IH]; intros i; simpl; [reflexivity|].
  rewrite IH. f_equal.
  unfold succeeded, exited_cleanly; simpl.
  destruct (behaviour_at self w i f) as [elapsed rc out err | e]; simpl;
    [|reflexivity].
  rewrite timeout_test. destruct (Qlt_le_dec 600 elapsed); [reflexivity|].
  cbn [subprocess.returncode]. rewrite exit_test.
  now destruct (Z.eq_dec rc 0).
Qed.

Lemma count_through_map {A B} (g : A -> B) (p : B -> bool) (l : list A) :
  List.length (filter p (map g l))
  = List.length (filter (fun x => p (g x)) l).
Proof.
  induction l as [|x l IH]; simpl; [reflexivity|].
  destruct (p (g x)); simpl; now rewrite IH.
Qed.

Lemma count_flags {A} (f : A -> bool) (l : list A) :
  List.length (filter f l) = List.length (filter (fun b => b) (map f l))
  /\ List.length (filter (fun x => negb (f x)) l)
     = List.length (filter negb (map f l)).
Proof. rewrite !count_through_map. split; reflexivity. Qed.

(** The summary of a run, by the processes of the items attempted. *)
Lemma summary_by_exits (self : ProcessingWorker) (world : World) :
  summaries (run self world)
  = [(List.length
        (filter (fun jf => exited_cleanly
                             (behaviour_at self world (fst jf) (snd jf)))
           (attempted_items self world)),
      List.length
        (filter (fun jf => negb (exited_cleanly
                                   (behaviour_at self world (fst jf) (snd jf))))
           (attempted_items self world)))].
Proof.
  rewrite run_summary.
  destruct (count_flags succeeded (completions (run self world)))
    as [-> ->].
  destruct (count_flags
              (fun jf => exited_cleanly
                           (behaviour_at self world (fst jf) (snd jf)))
              (attempted_items self world))
    as [-> ->].
  rewrite run_completions, successes_are_clean_exits.
  unfold attempted_items. now rewrite reached_items_length.
Qed.

Lemma attempted_length (self : ProcessingWorker) (world : World) :
  List.length (attempted_items self world) = reached self world.
Proof.
  unfold attempted_items.
  rewrite length_combine, length_seq, reached_items_length. lia.
Qed.

End run_reads.

(** X3. A run of N items reads the cancellation flag at most N times, at
    the top of the iterations, and starts at most N processes: two worlds
    that agree on the first N readings of the flag and on the first N
    processes give the same run.  So a cancellation requested once the
    last item has started is never acted on, and nothing is logged about
    it. *)
Theorem run_reads_only_first_tests (self : ProcessingWorker)
  (world world' : World) :
  (forall j, j < List.length (files self) ->
             _cancelled world j = _cancelled world' j) ->
  (forall j args, j < List.length (files self) ->
                  script world j args = script world' j args) ->
  run self world = run self world'.
Proof.
  intros Hc Hs.
  assert (R : reached self world = reached self world').
  { unfold reached. apply run_reads.attempts_agree.
    intros j Hj. apply Hc. lia. }
  destruct (run_reads.items_agree self world world'
              (List.length (files self))
              (firstn (reached self world) (files self)) 0) as [Ht Hn].
  { intros j args Hj. apply Hs.
    rewrite reached_items_length in Hj.
    pose proof (reached_le self world). lia. }
  rewrite !run_decomposed. cbv zeta. now rewrite <- R, Ht, Hn.
Qed.

(** Witness of X3: cancelling after the third test of a three-item run
    gives the run in which nobody cancels. *)
Lemma run_reads_only_first_tests_witness :
  run sample_worker late_cancel_world = run sample_worker quiet_world.
Proof.
  apply (run_reads_only_first_tests sample_worker late_cancel_world
           quiet_world).
  - intros j Hj. simpl in Hj.
    destruct j as [|[|[|j]]]; [reflexivity | reflexivity | reflexivity | lia].
  - intros j args _. reflexivity.
Defined.

(** X4. The summary of a run counts, among the items attempted, those
    whose process ended within the timeout with exit status 0 as
    successful and all the others as failed. *)
Theorem summary_counts_clean_exits (self : ProcessingWorker) (world : World) :
  let clean := fun jf : nat * Path =>
                 exited_cleanly (behaviour_at self world (fst jf) (snd jf)) in
  summaries (run self world)
  = [(List.length (filter clean (attempted_items self world)),
      List.length (filter (fun jf => negb (clean jf))
                     (attempted_items self world)))].
Proof. apply run_reads.summary_by_exits. Qed.

(** ** Where the script is looked for *)

Module script_facts.

Lemma first_location_spec (fs : FileSystem) (locations : list Path) :
  match first_location fs locations with
  | Some loc =>
      exists k,
        nth_error locations k = Some loc
        /\ usable fs loc = true
        /\ forall j other, j < k -> nth_error locations j = Some other ->
                           usable fs other = false
  | None => forall other, In other locations -> usable fs other = false
  end.
Proof.
  induction locations as [|loc locations IH]; simpl.
  - intros other [].
  - fold (usable fs loc). destruct (usable fs loc) eqn:U.
    + exists 0. split; [reflexivity|]. split; [exact U|].
      intros j other Hj. lia.
    + destruct (first_location fs locations) as [found|].
      * destruct IH as (k & Hk & Hu & Hbefore).
        exists (S k). split; [exact Hk|]. split; [exact Hu|].
        intros [|j] other Hj Hn; simpl in Hn.
        -- now injection Hn as <-.
        -- apply (Hbefore j); [lia | exact Hn].
      * intros other [<-|Hin]; [exact U | now apply IH].
Qed.

End script_facts.


(** X6. When none of the four locations exists, no run can be started
    from the window as long as [start_processing] has no output folder to
    create: it shows "Processing script not found" with the location
    beside the program and returns without a worker. *)
Theorem missing_script_blocks_run (fs : FileSystem) (here home : Path)
  (files_to_process : list Path) (checked : bool) (text : string) :
  (forall loc, In loc (script_locations here home) ->
               path_exists fs loc = false) ->
  files_to_process <> [] ->
  checked = false \/ path_exists fs (pathlib.of_str text) = true ->
  MainWindow.start_processing files_to_process (_find_script fs here home)
    (form_on fs (_find_script fs here home) checked text)
  = MainWindow.NoRun
      (Some ("Error",
             "Processing script not found:" ++ pystr.LF
             ++ pathlib.str (here </> "process_audio.sh"))).
Proof.
  intros Hnone Hq Hout.
  assert (F : _find_script fs here home = here </> "process_audio.sh").
  { unfold _find_script.
    pose proof (script_facts.first_location_spec fs
                  (script_locations here home)) as S.
    destruct (first_location fs _) as [loc|]; [|reflexivity].
    destruct S as (k & Hk & Hu & _).
    apply nth_error_In in Hk. unfold usable in Hu.
    rewrite (Hnone loc Hk) in Hu. discriminate. }
  rewrite F. unfold MainWindow.start_processing, form_on; simpl.
  destruct files_to_process as [|p q]; [contradiction|].
  rewrite (Hnone (here </> "process_audio.sh")) by now left.
  destruct Hout as [-> | ->]; simpl; [reflexivity|].
  destruct checked; reflexivity.
Qed.

(** Witness of X6 on an empty file system. *)
Lemma missing_script_blocks_run_witness :
  MainWindow.start_processing [a_wav]
    (_find_script (mkFileSystem (fun _ => false) (fun _ => false))
       (pathlib.of_str "/opt/app") (pathlib.of_str "/home/user"))
    (form_on (mkFileSystem (fun _ => false) (fun _ => false))
       (_find_script (mkFileSystem (fun _ => false) (fun _ => false))
          (pathlib.of_str "/opt/app") (pathlib.of_str "/home/user"))
       false "")
  = MainWindow.NoRun
      (Some ("Error",
             "Processing script not found:" ++ pystr.LF
             ++ "/opt/app/process_audio.sh")).
Proof.
  apply (missing_script_blocks_run
           (mkFileSystem (fun _ => false) (fun _ => false))
           (pathlib.of_str "/opt/app") (pathlib.of_str "/home/user")
           [a_wav] false "").
  - reflexivity.
  - discriminate.
  - now left.
Defined.



(** ** The settings file *)

Module settings_facts.

Import SettingsManager.

Lemma load_save (s : AppSettings) :
  load (save s)
  = Returns (mkSettings (output_folder s) (use_custom_output s)
               (last_input_folder s) "").
Proof. reflexivity. Qed.


Lemma load_object (data : list (string * json)) :
  load (Holds (JObject data))
  = Returns (mkSettings (get data "output_folder" (JString ""))
               (get data "use_custom_output" (JBool false))
               (get data "last_input_folder" (JString "")) "").
Proof. reflexivity. Qed.

Lemma load_returns (file : ConfigFile) :
  (exists s, load file = Returns s)
  <-> file = Missing \/ file = Fails IOError \/ file = Fails JSONDecodeError
      \/ exists data, file = Holds (JObject data).
Proof.
  split.
  - intros [s H]. destruct file as [| | e | v]; simpl in H.
    + now left.
    + discriminate.
    + destruct e; simpl in H; try discriminate; tauto.
    + destruct v; try discriminate. right; right; right. now eexists.
  - intros [-> | [-> | [-> | [data ->]]]]; eexists; reflexivity.
Qed.

Lemma load_raises (file : ConfigFile) (e : ReadError) :
  load file = Raises e
  <-> (file = Inaccessible /\ e = IOError)
      \/ (file = Fails e /\ caught e = false).
Proof.
  split.
  - destruct file as [| | e' | v]; simpl; try discriminate.
    + intros H. injection H as <-. now left.
    + destruct (caught e') eqn:C; [discriminate|].
      intros H. injection H as <-. now right.
    + destruct v; discriminate.
  - intros [[-> ->] | [-> C]]; simpl; [reflexivity | now rewrite C].
Qed.

Lemma load_attribute_error (file : ConfigFile) :
  load file = RaisesAttributeError
  <-> exists v, file = Holds v /\ forall data, v <> JObject data.
Proof.
  split.
  - destruct file as [| | e | v]; simpl; try discriminate.
    + destruct (caught e); discriminate.
    + destruct v; try discriminate; intros _; eexists;
        (split; [reflexivity | discriminate]).
  - intros (v & -> & Hv). destruct v; try reflexivity.
    now contradiction (Hv members).
Qed.


End settings_facts.

(** X8. Saving settings and loading them again gives back the three
    persisted fields, whatever they hold, and an empty window geometry:
    the geometry is the one field [save] does not write.  Saving what was
    loaded writes the same file again. *)
Theorem settings_round_trip (s : SettingsManager.AppSettings) :
  SettingsManager.load (SettingsManager.save s)
  = SettingsManager.Returns
      (SettingsManager.mkSettings
         (SettingsManager.output_folder s)
         (SettingsManager.use_custom_output s)
         (SettingsManager.last_input_folder s) "")
  /\ (forall s', SettingsManager.load (SettingsManager.save s)
                 = SettingsManager.Returns s' ->
                 SettingsManager.save s' = SettingsManager.save s).
Proof.
  split; [apply settings_facts.load_save|].
  intros s' H. rewrite settings_facts.load_save in H.
  now injection H as <-.
Qed.

(** X9. [load] returns settings exactly in four cases: the file is
    missing, [open] raises [IOError], [json.load] raises
    [JSONDecodeError] (all three give the defaults), or the file holds a
    JSON object, and then each of the three keys gives its own value
    when the object has it and its own default when it has not.  In
    every other case [load] raises instead of falling back: the
    [AttributeError] of [data.get] exactly when the file holds a JSON
    value that is not an object, and otherwise what was raised, a
    [UnicodeDecodeError], the [ValueError] of an integer with too many
    digits or a [RecursionError] of [json.load], none of which the
    [except] clause names, or the error of [exists()], which is raised
    outside the [try]. *)
Theorem load_fallbacks_and_failure :
  (forall file,
      (exists s, SettingsManager.load file = SettingsManager.Returns s)
      <-> file = SettingsManager.Missing
          \/ file = SettingsManager.Fails SettingsManager.IOError
          \/ file = SettingsManager.Fails SettingsManager.JSONDecodeError
          \/ exists data, file = SettingsManager.Holds (JObject data))
  /\ (forall file,
        file = SettingsManager.Missing
        \/ file = SettingsManager.Fails SettingsManager.IOError
        \/ file = SettingsManager.Fails SettingsManager.JSONDecodeError ->
        SettingsManager.load file
        = SettingsManager.Returns SettingsManager.defaults)
  /\ (forall data,
        exists s,
          SettingsManager.load (SettingsManager.Holds (JObject data))
          = SettingsManager.Returns s
          /\ SettingsManager.output_folder s
             = match SettingsManager.lookup "output_folder" data with
               | Some v => v
               | None => JString ""
               end
          /\ SettingsManager.use_custom_output s
             = match SettingsManager.lookup "use_custom_output" data with
               | Some v => v
               | None => JBool false
               end
          /\ SettingsManager.last_input_folder s
             = match SettingsManager.lookup "last_input_folder" data with
               | Some v => v
               | None => JString ""
               end
          /\ SettingsManager.window_geometry s = "")
  /\ (forall file,
        SettingsManager.load file = SettingsManager.RaisesAttributeError
        <-> exists v, file = SettingsManager.Holds v
                      /\ forall data, v <> JObject data)
  /\ (forall file e,
        SettingsManager.load file = SettingsManager.Raises e
        <-> (file = SettingsManager.Inaccessible
             /\ e = SettingsManager.IOError)
            \/ (file = SettingsManager.Fails e
                /\ (e = SettingsManager.UnicodeDecodeError
                    \/ e = SettingsManager.ValueError
                    \/ e = SettingsManager.RecursionError))).
Proof.
  split; [apply settings_facts.load_returns|].
  split; [now intros file [-> | [-> | ->]]|].
  split.
  - intros data. eexists. split; [apply settings_facts.load_object|].
    repeat split.
  - split; [apply settings_facts.load_attribute_error|].
    intros file e. rewrite settings_facts.load_raises.
    split; (intros [H | [-> H]]; [now left | right; split; [reflexivity|]]).
    + destruct e; simpl in H; try discriminate; tauto.
    + now destruct H as [-> | [-> | ->]].
Qed.

(** Witness of X9: a settings file that holds a JSON list, and one that
    is not text in the encoding, stop [load]; one that holds an object
    with one of the keys gives that value and the defaults of the
    others. *)
Lemma load_fallbacks_and_failure_witness :
  SettingsManager.load (SettingsManager.Holds (JArray []))
  = SettingsManager.RaisesAttributeError
  /\ SettingsManager.load
       (SettingsManager.Fails SettingsManager.UnicodeDecodeError)
     = SettingsManager.Raises SettingsManager.UnicodeDecodeError
  /\ SettingsManager.load
       (SettingsManager.Holds
          (JObject [("theme", JString "dark");
                    ("output_folder", JString "/out")]))
     = SettingsManager.Returns
         (SettingsManager.mkSettings (JString "/out") (JBool false)
            (JString "") "").
Proof.
  destruct load_fallbacks_and_failure as (_ & _ & Hkeys & Hattr & Hraise).
  split; [|split].
  - apply Hattr. exists (JArray []). split; [reflexivity | discriminate].
  - apply Hraise. right. split; [reflexivity | now left].
  - destruct (Hkeys [("theme", JString "dark");
                     ("output_folder", JString "/out")])
      as (s & -> & H1 & H2 & H3 & H4).
    destruct s as [o u l g]. simpl in *. now subst.
Defined.



(** ** The window *)

Module window_facts.

Import Window.

Lemma started_worker (q : list Path) (sp : Path) (form : MainWindow.Form)
  (w : ProcessingWorker) :
  MainWindow.start_processing q sp form = MainWindow.Run w ->
  files w = q /\ q <> [].
Proof.
  unfold MainWindow.start_processing.
  destruct q as [|p q]; [discriminate|].
  destruct (MainWindow.use_custom_output_isChecked form).
  - destruct (negb (MainWindow.output_folder_exists form)).
    + destruct (MainWindow.mkdir_raises form); [discriminate|].
      destruct (negb (MainWindow.script_exists form)); [discriminate|].
      intros H; injection H as <-. now split.
    + destruct (negb (MainWindow.script_exists form)); [discriminate|].
      intros H; injection H as <-. now split.
  - destruct (negb (MainWindow.script_exists form)); [discriminate|].
    intros H; injection H as <-. now split.
Qed.

Lemma has_files_app (q added : list Path) :
  q <> [] -> has_files (q ++ added) = true.
Proof. destruct q; [contradiction | reflexivity]. Qed.

Lemma add_files_keeps (st : State) (files : list Path) :
  window_invariant st -> window_invariant (add_files st files).
Proof.
  intros [Hnd Hw].
  pose proof (queue_facts.add_files_NoDup files _ Hnd) as Hnd'.
  destruct (queue_facts.add_files_extends files (files_to_process st))
    as [more E].
  unfold add_files, update_ui_state, with_queue, window_invariant.
  cbn [files_to_process worker process_btn cancel_btn add_files_btn
       add_folder_btn clear_btn remove_selected_btn].
  split; [exact Hnd'|].
  destruct (worker st) as [[w cancelled]|]; cbn [no_worker].
  - destruct Hw as (Hp & Hc & Ha & Hf & Hcl & Hr & Hne & added & Hq).
    rewrite andb_false_r. repeat (split; [assumption || reflexivity|]).
    exists (added ++ more)%list. rewrite E, Hq. now rewrite app_assoc.
  - destruct Hw as (Hp & Hc & Ha & Hf & Hcl & Hr).
    rewrite andb_true_r. now repeat split.
Qed.

Lemma add_if_any_keeps (st : State) (files : list Path) :
  window_invariant st -> window_invariant (add_if_any st files).
Proof.
  intros I. destruct files as [|p files]; [exact I|].
  now apply add_files_keeps.
Qed.

Lemma handle_keeps (st : State) (e : Event) :
  window_invariant st -> possible st e = true ->
  window_invariant (handle st e).
Proof.
  intros I P. destruct e as [files | files | files | | selected | form | |];
    simpl in *; try now apply add_if_any_keeps.
  - (* clear *)
    destruct I as [Hnd Hw]. destruct (worker st) as [[w c]|] eqn:W.
    + destruct Hw as (_ & _ & _ & _ & Hcl & _). congruence.
    + unfold clear_files, update_ui_state, with_queue, window_invariant;
        simpl. rewrite W. split; [constructor|]. now repeat split.
  - (* remove *)
    destruct I as [Hnd Hw]. destruct (worker st) as [[w c]|] eqn:W.
    + destruct Hw as (_ & _ & _ & _ & _ & Hr & _). congruence.
    + unfold remove_selected, update_ui_state, with_queue, window_invariant;
        simpl. rewrite W; simpl. rewrite andb_true_r.
      split; [|now repeat split].
      rewrite queue_facts.remove_selected_filter by exact Hnd.
      now apply queue_facts.filter_NoDup.
  - (* process *)
    destruct I as [Hnd Hw]. unfold start_processing.
    destruct (MainWindow.start_processing _ _ form) as [d|w] eqn:S;
      [now split|].
    destruct (started_worker _ _ _ _ S) as [Hf Hne].
    unfold window_invariant; simpl. split; [exact Hnd|].
    repeat (split; [reflexivity|]).
    split; [now rewrite Hf|]. exists []. now rewrite Hf, app_nil_r.
  - (* cancel *)
    destruct I as [Hnd Hw]. unfold cancel_processing.
    destruct (worker st) as [[w c]|] eqn:W.
    + unfold window_invariant; simpl. split; [exact Hnd|].
      destruct Hw as (Hp & Hc & Ha & Hf & Hcl & Hr & Hne & Hq).
      now repeat split.
    + unfold window_invariant. rewrite W. now split.
  - (* all_complete *)
    destruct I as [Hnd Hw]. destruct (worker st) as [[w c]|] eqn:W;
      [|discriminate].
    destruct Hw as (_ & _ & _ & _ & _ & _ & Hne & added & Hq).
    unfold on_all_complete, window_invariant; simpl.
    split; [exact Hnd|].
    rewrite Hq, (has_files_app _ _ Hne). now repeat split.
Qed.

Lemma reachable_invariant (sp : Path) (st : State) :
  reachable sp st -> window_invariant st.
Proof.
  induction 1 as [|st e _ IH P].
  - unfold window_invariant, init; simpl. split; [constructor|].
    now repeat split.
  - now apply handle_keeps.
Qed.

Lemma session_reachable (sp : Path) (events : list Event) :
  forall st, reachable sp st ->
             (fix ok (st : State) (es : list Event) : bool :=
                match es with
                | [] => true
                | e :: es' => possible st e && ok (handle st e) es'
                end) st events = true ->
             reachable sp (fold_left handle events st).
Proof.
  induction events as [|e events IH]; intros st R H; simpl; [exact R|].
  apply andb_true_iff in H as [P H].
  apply IH; [now apply reach_step | exact H].
Qed.

End window_facts.

(** X11. In every state the window can reach, the Process button is
    enabled exactly when the queue is not empty and no run is in
    progress, so a second run cannot be started while one is active and
    [start_processing] is never entered with an empty queue; while a run
    is in progress the buttons that add, clear and remove are disabled;
    and the Cancel button is enabled exactly while a run is in progress
    whose cancellation has not been requested. *)
Theorem buttons_follow_the_run (script_path : Path) (st : Window.State) :
  Window.reachable script_path st ->
  (Window.process_btn st = true
   <-> Window.files_to_process st <> [] /\ Window.worker st = None)
  /\ (Window.worker st <> None ->
      Window.add_files_btn st = false /\ Window.add_folder_btn st = false
      /\ Window.clear_btn st = false
      /\ Window.remove_selected_btn st = false)
  /\ (Window.cancel_btn st = true
      <-> exists w, Window.worker st = Some (w, false)).
Proof.
  intros R. destruct (window_facts.reachable_invariant _ _ R) as [_ I].
  destruct (Window.worker st) as [[w c]|].
  - destruct I as (Hp & Hc & Ha & Hf & Hcl & Hr & _).
    split; [| split].
    + rewrite Hp. split; [discriminate | intros [_ H]; discriminate].
    + intros _. now repeat split.
    + rewrite Hc. split.
      * destruct c; [discriminate | intros _; now exists w].
      * intros [w' H]. now injection H as _ ->.
  - destruct I as (Hp & Hc & Ha & Hf & Hcl & Hr).
    split; [| split].
    + rewrite Hp. destruct (Window.files_to_process st); simpl.
      * split; [discriminate | intros [H _]; contradiction].
      * split; [intros _; split; [discriminate | reflexivity] | reflexivity].
    + intros H. contradiction.
    + rewrite Hc. split; [discriminate | intros [w H]; discriminate].
Qed.

(** Witness of X11: in the sample session the run is in progress, so
    Process is disabled and Cancel enabled. *)
Lemma buttons_follow_the_run_witness :
  Window.reachable sample_script sample_window
  /\ Window.process_btn sample_window = false
  /\ Window.cancel_btn sample_window = true.
Proof.
  assert (R : Window.reachable sample_script sample_window).
  { apply window_facts.session_reachable; [constructor | reflexivity]. }
  split; [exact R|].
  destruct (buttons_follow_the_run sample_script sample_window R)
    as (_ & _ & Hc).
  split; [reflexivity|]. apply Hc. eexists. reflexivity.
Defined.

(** X12. While a run is in progress the queue always begins with the
    files the worker was started on, in their order: whatever is added
    during the run (files can still be dropped on the list) is appended
    behind them, and nothing the worker processes can leave the queue or
    change place before the run ends.  The worker's own list is never
    empty. *)
Theorem queue_extends_snapshot (script_path : Path) (st : Window.State)
  (w : ProcessingWorker) (cancelled : bool) :
  Window.reachable script_path st ->
  Window.worker st = Some (w, cancelled) ->
  files w <> []
  /\ exists added,
      Window.files_to_process st = (files w ++ added)%list
      /\ NoDup (files w ++ added).
Proof.
  intros R W. destruct (window_facts.reachable_invariant _ _ R) as [Hnd I].
  rewrite W in I. destruct I as (_ & _ & _ & _ & _ & _ & Hne & added & Hq).
  split; [exact Hne|]. exists added. split; [exact Hq | now rewrite <- Hq].
Qed.

(** Witness of X12: in the sample session a file dropped during the run
    is in the queue behind the two files the worker was started on. *)
Lemma queue_extends_snapshot_witness :
  Window.reachable sample_script sample_window
  /\ exists w,
      Window.worker sample_window = Some (w, false)
      /\ files w = [a_wav; b_mp3]
      /\ Window.files_to_process sample_window = (files w ++ [c_ogg])%list.
Proof.
  assert (R : Window.reachable sample_script sample_window).
  { apply window_facts.session_reachable; [constructor | reflexivity]. }
  split; [exact R|].
  eexists. split; [reflexivity|].
  destruct (queue_extends_snapshot sample_script sample_window _ false R
              eq_refl) as (_ & added & Hq & _).
  split; reflexivity.
Defined.

(** ** What the window shows of a run *)

Module view_facts.

Lemma signals_app (t u : list effect) :
  signals (t ++ u) = (signals t ++ signals u)%list.
Proof.
  induction t as [|e t IH]; [reflexivity|].
  destruct e; simpl; now rewrite IH.
Qed.

Lemma maximum_kept (sigs : list signal) :
  forall v, progress_bar_maximum (fold_left deliver sigs v)
            = progress_bar_maximum v.
Proof.
  induction sigs as [|s sigs IH]; intros v; simpl; [reflexivity|].
  rewrite IH. now destruct s.
Qed.

(** Only the [progress] signals move the bar. *)
Lemma value_after (t : list effect) :
  forall v,
    progress_bar_value (fold_left deliver (signals t) v)
    = fold_left (fun shown i =>
                   if (i <=? progress_bar_maximum v)%nat then i else shown)
        (map fst (progress_marks t)) (progress_bar_value v).
Proof.
  induction t as [|e t IH]; intros v; [reflexivity|].
  destruct e as [[i n m | name ok m | s f | m] | args timeout]; simpl;
    rewrite ?IH; reflexivity.
Qed.

(** Only the [all_complete] signals open message boxes. *)
Lemma dialogs_after (t : list effect) :
  forall v,
    dialogs (fold_left deliver (signals t) v)
    = (dialogs v
       ++ flat_map (fun sf => completion_dialog (fst sf) (snd sf))
            (summaries t))%list.
Proof.
  induction t as [|e t IH]; intros v; simpl; [now rewrite app_nil_r|].
  destruct e as [[i n m | name ok m | s f | m] | args timeout]; simpl;
    rewrite ?IH; simpl; try reflexivity.
  now rewrite app_assoc.
Qed.

Lemma counting_up (n k : nat) :
  k <= S n ->
  fold_left (fun shown i => if (i <=? n)%nat then i else shown) (seq 0 k) 0
  = pred k.
Proof.
  induction k as [|k IH]; intros H; [reflexivity|].
  rewrite seq_S, fold_left_app. simpl.
  destruct (Nat.leb_spec k n); [reflexivity | lia].
Qed.

Lemma seq_prefix (k : nat) :
  forall start len, k <= len -> firstn k (seq start len) = seq start k.
Proof.
  induction k as [|k IH]; intros start len H; [reflexivity|].
  destruct len as [|len]; [lia|]. simpl. f_equal. apply IH. lia.
Qed.

(** The bar after the first [k] requests of a run that attempts [a] of
    [n] items. *)
Lemma shown_after (a n k : nat) :
  a <= n -> k <= S a ->
  fold_left (fun shown i => if (i <=? n)%nat then i else shown)
    (firstn k (seq 0 a ++ [n])) 0
  = if (k <=? a)%nat then pred k else n.
Proof.
  intros Ha Hk. destruct (Nat.leb_spec k a) as [L|L].
  - rewrite firstn_app, length_seq.
    replace (k - a) with 0 by lia. simpl. rewrite app_nil_r.
    rewrite seq_prefix by exact L.
    apply counting_up. lia.
  - rewrite firstn_all2 by (rewrite length_app, length_seq; simpl; lia).
    rewrite fold_left_app. simpl. now rewrite Nat.leb_refl.
Qed.

Lemma requests_of_run (self : ProcessingWorker) (world : World) :
  map fst (progress_marks (run self world))
  = (seq 0 (reached self world) ++ [List.length (files self)])%list.
Proof.
  rewrite run_progress, map_app, map_map. simpl. now rewrite map_id.
Qed.

End view_facts.

(** X13. While the signals of a run arrive, the progress bar shows the
    index of the item being processed, that is the number of items
    already finished: after the [k]-th [progress] signal of a run that
    attempts [a] items the bar is at [k - 1] for [k <= a], and the last
    [progress] signal puts it at its maximum, the length of the queue,
    also when the run was cancelled.  No request is outside the range of
    the bar, so none is ignored, and the bar never moves backwards. *)
Theorem progress_bar_follows_run (self : ProcessingWorker) (world : World)
  (label status : string) (pre post : list effect) :
  run self world = (pre ++ post)%list ->
  let n := List.length (files self) in
  let v := fold_left deliver (signals pre) (started_view label status n) in
  let k := List.length (progress_marks pre) in
  progress_bar_maximum v = n
  /\ k <= S (reached self world)
  /\ progress_bar_value v
     = (if (k <=? reached self world)%nat then pred k else n)
  /\ progress_bar_value v
     <= progress_bar_value (view_after_run self world label status)
  /\ progress_bar_value (view_after_run self world label status) = n.
Proof.
  intros E n v k.
  pose proof (reached_le self world) as Ha. fold n in Ha.
  pose proof (view_facts.requests_of_run self world) as R.
  fold n in R. rewrite E, progress_marks_app, map_app in R.
  assert (Hk : k <= S (reached self world)).
  { apply (f_equal (@List.length nat)) in R.
    rewrite !length_app, !length_map, length_seq in R. simpl in R.
    unfold k. lia. }
  assert (P : map fst (progress_marks pre)
              = firstn k (seq 0 (reached self world) ++ [n])).
  { rewrite <- R, firstn_app, length_map. fold k.
    replace (k - k) with 0 by lia. simpl. rewrite app_nil_r.
    symmetry. apply firstn_all2. rewrite length_map. apply Nat.le_refl. }
  assert (V : progress_bar_value v
              = if (k <=? reached self world)%nat then pred k else n).
  { unfold v. rewrite view_facts.value_after, P. simpl.
    now apply view_facts.shown_after. }
  assert (F : progress_bar_value (view_after_run self world label status) = n).
  { unfold view_after_run. rewrite view_facts.value_after.
    rewrite view_facts.requests_of_run. fold n. simpl.
    rewrite <- (firstn_all2 (n:=S (reached self world))
                  (seq 0 (reached self world) ++ [n])%list)
      by (rewrite length_app, length_seq; simpl; lia).
    rewrite view_facts.shown_after by lia.
    destruct (Nat.leb_spec (S (reached self world)) (reached self world));
      [lia | reflexivity]. }
  split; [apply view_facts.maximum_kept|]. split; [exact Hk|].
  split; [exact V|]. split; [|exact F].
  rewrite V, F. destruct (Nat.leb_spec k (reached self world)); lia.
Qed.

(** Witness of X13: when the second item of the sample run starts, the
    bar is at 1 of 3. *)
Lemma progress_bar_follows_run_witness :
  progress_bar_value
    (fold_left deliver
       (signals (firstn 9 (run sample_worker quiet_world)))
       (started_view "Ready" "" 3))
  = 1.
Proof.
  destruct (progress_bar_follows_run sample_worker quiet_world "Ready" ""
              (firstn 9 (run sample_worker quiet_world))
              (skipn 9 (run sample_worker quiet_world))
              (eq_sym (firstn_skipn 9 (run sample_worker quiet_world))))
    as (_ & _ & V & _).
  exact V.
Defined.

(** X14. When a run is over the window shows: the bar full; the label
    with the number of attempted items whose process exited cleanly over
    the number of items attempted (not the length of the queue); and one
    message box, a warning as soon as one attempted item failed, an
    information naming the number attempted when all of them exited
    cleanly, and none at all when the run was cancelled before its first
    item. *)
Theorem completion_display (self : ProcessingWorker) (world : World)
  (label status : string) :
  let v := view_after_run self world label status in
  let clean := fun jf : nat * Path =>
                 exited_cleanly (behaviour_at self world (fst jf) (snd jf)) in
  let s := List.length (filter clean (attempted_items self world)) in
  let f := List.length (filter (fun jf => negb (clean jf))
                          (attempted_items self world)) in
  s + f = reached self world
  /\ progress_bar_value v = progress_bar_maximum v
  /\ progress_label v
     = ("Complete: " ++ decimal s ++ "/" ++ decimal (reached self world)
        ++ " successful")%string
  /\ dialogs v
     = match f, reached self world with
       | S _, _ =>
           [ (Warning, "Complete with Errors",
              ("Processed " ++ decimal s ++ " file(s) successfully."
               ++ pystr.LF ++ decimal f
               ++ " file(s) failed - check the log for details.")%string) ]
       | 0, S _ =>
           [ (Information, "Complete",
              ("Successfully processed " ++ decimal (reached self world)
               ++ " file(s)!")%string) ]
       | 0, 0 => []
       end.
Proof.
  intros v clean s f.
  assert (T : s + f = reached self world).
  { unfold s, f. rewrite filter_split_length.
    apply run_reads.attempted_length. }
  pose proof (run_reads.summary_by_exits self world) as Sm.
  fold clean s f in Sm.
  destruct (run_ends self world) as (t & s' & f' & E & St & _).
  assert (Es : s' = s /\ f' = f).
  { rewrite E, summaries_app, St in Sm. simpl in Sm.
    injection Sm as -> ->. now split. }
  destruct Es as [-> ->].
  assert (V : v = show_all_complete
                    (on_progress
                       (fold_left deliver (signals t)
                          (started_view label status
                             (List.length (files self))))
                       (List.length (files self)) (List.length (files self))
                       "Complete") s f).
  { unfold v, view_after_run.
    rewrite E, view_facts.signals_app, fold_left_app. reflexivity. }
  split; [exact T|]. split; [|split].
  - rewrite V. cbn [show_all_complete on_progress progress_bar_value
                    progress_bar_maximum].
    unfold setValue. rewrite view_facts.maximum_kept.
    cbn [started_view progress_bar_maximum]. now rewrite Nat.leb_refl.
  - rewrite V. cbn [show_all_complete progress_label]. now rewrite T.
  - rewrite V. cbn [show_all_complete on_progress dialogs].
    rewrite view_facts.dialogs_after, St. simpl.
    unfold completion_dialog. rewrite <- T.
    destruct f as [|f0]; simpl.
    + rewrite Nat.add_0_r. now destruct s.
    + reflexivity.
Qed.
